(** * Verification of the chat / RAG pipeline of full_agent_demo

    Shallow embedding of
    - [src/core/models/ollamaModel.ts]  (OllamaModel: the constructor's
      system prompt and tool map, message conversion, [streamChat], tool
      execution, SSE [createStreamingResponse]);
    - [src/core/models/ragModel.ts]     (RAGModel decorator, [buildRAGPrompt],
      [updateRAGOptions]);
    - [src/core/rag/textSplitter.ts]    (retrieval chains and [buildPrompt]);
    - [src/core/rag/embedding.ts]       ([createEmbeddings], [embedDocuments],
      [embedChunks]);
    - [src/core/tools/GetCurrentTimeTool.ts] ([getFormattedTime]);
    - [src/app/page.tsx]                (vector store: [searchSimilarDocuments],
      [addDocumentsToVectorStore]; the chat page's SSE reader).

    The language model, the vector database and the tools are outside the
    program: they are parameters (records of functions), so every statement
    holds for every behaviour of theirs.  JavaScript strings are modelled as
    Rocq strings (the UTF-8 bytes of the source's literals), except the
    system prompt, whose header removal and [trim] look at single
    characters: it is a list of UTF-16 code units. *)

From Stdlib Require Import String Ascii List Bool ZArith Lia Decimal DecimalNat.
Import ListNotations.
Open Scope string_scope.
Open Scope list_scope.

(** String concatenation ([++] is list append below). *)
Notation "a ^ b" := (String.append a b) : string_scope.

(** ** JavaScript values that can be thrown

    [undefined], [null], [Error] instances and every other value that has a
    constructor (primitives, ordinary objects).  Objects without a
    prototype, on which [error.constructor.name] and [String(error)]
    themselves throw, are not modelled. *)

Inductive JsVal : Type :=
| JUndefined
| JNull
| JError (name msg : string)   (* an [Error] instance: name and message *)
| JPrim (repr : string).       (* any other non-nullish value, by String(v) *)

(** [String(v)] *)
Definition js_String (v : JsVal) : string :=
  match v with
  | JUndefined => "undefined"
  | JNull => "null"
  | JError name msg => if String.eqb msg EmptyString then name else name ^ ": " ^ msg
  | JPrim s => s
  end.

(** [error instanceof Error ? error.message : String(error)] *)
Definition error_text (v : JsVal) : string :=
  match v with
  | JError _ msg => msg
  | _ => js_String v
  end.

Definition is_nullish (v : JsVal) : bool :=
  match v with JUndefined | JNull => true | _ => false end.

(** Reading a property of [undefined] or [null] throws a TypeError. *)
Definition TypeError_read : JsVal :=
  JError "TypeError" "Cannot read properties of undefined".

(** JavaScript truthiness of an optional string field ([undefined] or a
    string; the empty string is falsy). *)
Definition truthy (o : option string) : bool :=
  match o with Some s => negb (String.eqb s EmptyString) | None => false end.

(** [a || b] *)
Definition js_or (a b : option string) : option string :=
  if truthy a then a else b.

(** ** Results of fallible (async) computations and the output monad *)

Inductive Res (A : Type) : Type :=
| Ok (a : A)
| Throw (e : JsVal).
Arguments Ok {A} a.
Arguments Throw {A} e.

(** [StreamChunk] of ollamaModel.ts *)
Inductive StreamChunk : Type :=
| CContent (content : string)
| CThinking (content : string)
| CError (error : string).

(** A computation that emits stream chunks (through [onChunk] or
    [controller.enqueue]) and then returns or throws. *)
Definition Out (A : Type) : Type := (list StreamChunk * Res A)%type.

Module Out.
Definition ret {A} (a : A) : Out A := ([], Ok a).
Definition bind {A B} (m : Out A) (k : A -> Out B) : Out B :=
  match m with
  | (o, Ok a) => let '(o', r) := k a in (o ++ o', r)
  | (o, Throw e) => (o, Throw e)
  end.
Definition emit (c : StreamChunk) : Out unit := ([c], Ok tt).
Definition throw {A} (e : JsVal) : Out A := ([], Throw e).
(** [await p] for a promise settling with [r] *)
Definition await {A} (r : Res A) : Out A := ([], r).
End Out.

Notation "x <- m ;; k" := (Out.bind m (fun x => k))
  (at level 61, m at next level, right associativity).
Notation "m ;;; k" := (Out.bind m (fun _ => k))
  (at level 61, right associativity).

(** ** Chat messages and LangChain messages *)

Inductive Role : Type := user | assistant.

Record ChatMessage : Type := mkChatMessage {
  role : Role;
  content : string
}.

Record ToolCall : Type := mkToolCall {
  tc_name : string;
  tc_args : string;
  tc_id : string
}.

(** The AI message returned by [model.invoke]. *)
Record AIResponse : Type := mkAIResponse {
  ai_content : string;
  tool_calls : list ToolCall
}.

Inductive BaseMessage : Type :=
| SystemMessage (content : string)
| HumanMessage (content : string)
| AIMessage (resp : AIResponse)
| ToolMessage (content tool_call_id : string).

(** One chunk of [model.stream]: [content] is [Some s] when
    [typeof chunk.content === "string"]; the optional reasoning fields. *)
Record Fragment : Type := mkFragment {
  frag_content : option string;
  reasoning_content : option string;
  thinking : option string
}.

(** An async iterable of fragments: its fragments, then either normal end
    ([None]) or an exception thrown by the iterator. *)
Record FragStream : Type := mkFragStream {
  frags : list Fragment;
  stream_end : option JsVal
}.

(** The chat model bound to the tools ([this.model]). *)
Record ChatModel : Type := mkChatModel {
  invoke : list BaseMessage -> Res AIResponse;
  stream : list BaseMessage -> Res FragStream
}.

(** A tool: [tool.invoke(args)] settles with the result (already passed
    through [String]) or throws. *)
Definition Tool : Type := string -> Res string.

(** The [Map<string, any>] from tool names to tools, as an association
    list in insertion order. *)
Definition ToolMap : Type := list (string * Tool).

Fixpoint map_get (m : ToolMap) (k : string) : option Tool :=
  match m with
  | [] => None
  | (k', t) :: m' => if String.eqb k k' then Some t else map_get m' k
  end.

Fixpoint map_set (m : ToolMap) (k : string) (t : Tool) : ToolMap :=
  match m with
  | [] => [(k, t)]
  | (k', t') :: m' =>
      if String.eqb k k' then (k', t) :: m' else (k', t') :: map_set m' k t
  end.

(** [this.tools.forEach((tool) => this.toolMap.set(tool.name, tool))] *)
Definition build_toolMap (tools : list (string * Tool)) : ToolMap :=
  fold_left (fun m nt => map_set m (fst nt) (snd nt)) tools [].

(** [for await (const chunk of s) body(chunk)] *)
Fixpoint for_each (fs : list Fragment) (body : Fragment -> Out unit) : Out unit :=
  match fs with
  | [] => Out.ret tt
  | f :: fs' => body f ;;; for_each fs' body
  end.

Definition for_await (s : FragStream) (body : Fragment -> Out unit) : Out unit :=
  for_each (frags s) body ;;;
  match stream_end s with
  | None => Out.ret tt
  | Some e => Out.throw e
  end.

(** ** Server-sent events *)

(** What [controller.enqueue] receives: a [data: <JSON>\n\n] frame for a
    chunk, or the [data: [DONE]\n\n] sentinel. *)
Inductive Frame : Type :=
| FChunk (c : StreamChunk)
| FDone.

(** The operations of the stream controller, in order. *)
Inductive Ctl : Type :=
| Enqueue (f : Frame)
| CloseStream.

Definition nl : string := String (ascii_of_nat 10) EmptyString.
Definition dq : string := String (ascii_of_nat 34) EmptyString.

Definition hex_digit (n : nat) : ascii :=
  ascii_of_nat (if Nat.ltb n 10 then 48 + n else 87 + n).

(** [JSON.stringify] of a string (on the byte range of the model). *)
Fixpoint json_escape (s : string) : string :=
  match s with
  | EmptyString => EmptyString
  | String c s' =>
      let n := nat_of_ascii c in
      let esc :=
        if Nat.eqb n 34 then "\" ^ dq
        else if Nat.eqb n 92 then "\\"
        else if Nat.eqb n 8 then "\b"
        else if Nat.eqb n 12 then "\f"
        else if Nat.eqb n 10 then "\n"
        else if Nat.eqb n 13 then "\r"
        else if Nat.eqb n 9 then "\t"
        else if Nat.ltb n 32 then
          "\u00" ^ String (hex_digit (n / 16)) (String (hex_digit (n mod 16)) EmptyString)
        else String c EmptyString in
      esc ^ json_escape s'
  end.

Definition json_string (s : string) : string := dq ^ json_escape s ^ dq.

(** [JSON.stringify] of a [StreamChunk] object literal, keys in source order. *)
Definition chunk_type (c : StreamChunk) : string :=
  match c with
  | CContent _ => "content"
  | CThinking _ => "thinking"
  | CError _ => "error"
  end.

Definition chunk_json (c : StreamChunk) : string :=
  let field :=
    match c with
    | CContent s | CThinking s => dq ^ "content" ^ dq ^ ":" ^ json_string s
    | CError e => dq ^ "error" ^ dq ^ ":" ^ json_string e
    end in
  "{" ^ dq ^ "type" ^ dq ^ ":" ^ json_string (chunk_type c) ^ "," ^ field ^ "}".

(** [encoder.encode(`data: ...\n\n`)] *)
Definition encode_frame (f : Frame) : string :=
  match f with
  | FChunk c => "data: " ^ chunk_json c ^ nl ^ nl
  | FDone => "data: [DONE]" ^ nl ^ nl
  end.

(** The bytes a reader of the stream receives. *)
Fixpoint stream_bytes (t : list Ctl) : string :=
  match t with
  | [] => EmptyString
  | Enqueue f :: t' => encode_frame f ^ stream_bytes t'
  | CloseStream :: t' => stream_bytes t'
  end.

(** ** OllamaModel (src/core/models/ollamaModel.ts) *)

Module OllamaModel.

(** [convertToLangChainMessages] *)
Definition convertToLangChainMessages (systemPrompt : string)
    (messages : list ChatMessage) : list BaseMessage :=
  SystemMessage systemPrompt ::
  map (fun msg => match role msg with
                  | user => HumanMessage (content msg)
                  | assistant => AIMessage (mkAIResponse (content msg) [])
                  end) messages.

(** The chunks emitted for one fragment when both content and thinking are
    forwarded ([streamChat] and the no-tool branch of
    [createStreamingResponse]). *)
Definition fragment_chunks (chunk : Fragment) : list StreamChunk :=
  match frag_content chunk with
  | Some content =>
      if truthy (Some content) then
        CContent content ::
        (if truthy (js_or (reasoning_content chunk) (thinking chunk)) then
           let thinkingContent := js_or (reasoning_content chunk) (thinking chunk) in
           if truthy thinkingContent then
             match thinkingContent with
             | Some t => [CThinking t]
             | None => []
             end
           else []
         else [])
      else []
  | None => []
  end.

(** Loop body of the no-tool pass: every chunk of the fragment is emitted. *)
Definition forward_full (chunk : Fragment) : Out unit :=
  fold_right (fun c k => Out.emit c ;;; k) (Out.ret tt) (fragment_chunks chunk).

(** Loop body of the post-tool pass: content only. *)
Definition forward_content (chunk : Fragment) : Out unit :=
  match frag_content chunk with
  | Some content => if truthy (Some content) then Out.emit (CContent content) else Out.ret tt
  | None => Out.ret tt
  end.

(** [streamChat]: the chunks passed to [onChunk], in order. *)
Definition streamChat (model : ChatModel) (systemPrompt : string)
    (messages : list ChatMessage) : list StreamChunk :=
  let langchainMessages := convertToLangChainMessages systemPrompt messages in
  let body :=
    stream0 <- Out.await (stream model langchainMessages) ;;
    for_await stream0 forward_full in
  match body with
  | (out, Ok _) => out
  | (out, Throw error) => out ++ [CError (error_text error)]
  end.

(** One iteration of [executeToolCalls]. *)
Definition executeToolCall (toolMap : ToolMap) (toolCall : ToolCall) : list BaseMessage :=
  match map_get toolMap (tc_name toolCall) with
  | Some tool =>
      match tool (tc_args toolCall) with
      | Ok result => [ToolMessage result (tc_id toolCall)]
      | Throw error => [ToolMessage ("Error: " ^ error_text error) (tc_id toolCall)]
      end
  | None => []
  end.

(** [executeToolCalls]: every exception of a tool is caught. *)
Definition executeToolCalls (toolMap : ToolMap) (toolCalls : list ToolCall) : list BaseMessage :=
  flat_map (executeToolCall toolMap) toolCalls.

(** The body of the [try] block of [start(controller)]. *)
Definition start_body (model : ChatModel) (toolMap : ToolMap)
    (langchainMessages : list BaseMessage) : Out unit :=
  response <- Out.await (invoke model langchainMessages) ;;
  match tool_calls response with
  | _ :: _ =>
      let toolMessages := executeToolCalls toolMap (tool_calls response) in
      let langchainMessages' := langchainMessages ++ AIMessage response :: toolMessages in
      finalStream <- Out.await (stream model langchainMessages') ;;
      for_await finalStream forward_content
  | [] =>
      stream0 <- Out.await (stream model langchainMessages) ;;
      for_await stream0 forward_full
  end.

(** [start(controller)] with its [try]/[catch]: the controller operations. *)
Definition start (body : Out unit) : list Ctl :=
  match body with
  | (out, Ok _) => map (fun c => Enqueue (FChunk c)) out ++ [Enqueue FDone; CloseStream]
  | (out, Throw error) =>
      map (fun c => Enqueue (FChunk c)) out ++
      [Enqueue (FChunk (CError (js_String error))); CloseStream]
  end.

(** [createStreamingResponse]: the controller operations of the stream. *)
Definition createStreamingResponse (model : ChatModel) (toolMap : ToolMap)
    (systemPrompt : string) (messages : list ChatMessage) : list Ctl :=
  start (start_body model toolMap (convertToLangChainMessages systemPrompt messages)).

End OllamaModel.

(** ** Decimal rendering of numbers in template literals *)

Fixpoint string_of_uint (u : uint) : string :=
  match u with
  | Nil => EmptyString
  | D0 u' => String "0" (string_of_uint u')
  | D1 u' => String "1" (string_of_uint u')
  | D2 u' => String "2" (string_of_uint u')
  | D3 u' => String "3" (string_of_uint u')
  | D4 u' => String "4" (string_of_uint u')
  | D5 u' => String "5" (string_of_uint u')
  | D6 u' => String "6" (string_of_uint u')
  | D7 u' => String "7" (string_of_uint u')
  | D8 u' => String "8" (string_of_uint u')
  | D9 u' => String "9" (string_of_uint u')
  end.

(** [`${n}`] for a non-negative integer index *)
Definition nat_to_string (n : nat) : string := string_of_uint (Nat.to_uint n).

(** [`${t}`] for an integer number such as [Date.now()] *)
Definition Z_to_string (z : Z) : string :=
  match Z.to_int z with
  | Pos u => string_of_uint u
  | Neg u => "-" ^ string_of_uint u
  end.

(** [Array.prototype.join(sep)] *)
Fixpoint js_join (sep : string) (xs : list string) : string :=
  match xs with
  | [] => EmptyString
  | [x] => x
  | x :: xs' => x ^ sep ^ js_join sep xs'
  end.

(** [xs.map((x, index) => f x index)] *)
Fixpoint map_index {A B} (f : A -> nat -> B) (xs : list A) (index : nat) : list B :=
  match xs with
  | [] => []
  | x :: xs' => f x index :: map_index f xs' (S index)
  end.

(** ** Prompt assembly *)

Record RetrievedDoc : Type := mkRetrievedDoc {
  doc_content : string;
  doc_metadata : list (string * string)
}.

Definition section (doc : RetrievedDoc) (index : nat) : string :=
  "[文档 " ^ nat_to_string (index + 1) ^ "]" ^ nl ^ doc_content doc.

Definition prompt_header : string :=
  "基于以下检索到的文档内容回答用户的问题。如果文档中没有相关信息，请如实说明。"
  ^ nl ^ nl ^ "检索到的文档内容：" ^ nl.

Definition prompt_suffix : string :=
  nl ^ nl ^ "请基于上述文档内容回答问题，并引用相关的文档编号。".

Definition prompt_template (contextSections query : string) : string :=
  prompt_header ^ contextSections ^ nl ^ nl ^ "用户问题：" ^ query ^ prompt_suffix.

(** [buildRAGPrompt] of ragModel.ts *)
Definition buildRAGPrompt (query : string) (retrievedDocs : list RetrievedDoc) : string :=
  match retrievedDocs with
  | [] => query
  | _ =>
      let contextSections := js_join (nl ^ nl) (map_index section retrievedDocs 0) in
      prompt_template contextSections query
  end.

(** [buildPrompt] of the retrieval chain (textSplitter.ts) *)
Definition buildPrompt (query : string) (retrievedDocs : list RetrievedDoc) : string :=
  let contextSections := js_join (nl ^ nl) (map_index section retrievedDocs 0) in
  prompt_template contextSections query.

(** [messages[messages.length - 1]] *)
Definition js_last {A} (xs : list A) : option A :=
  match xs with
  | [] => None
  | x :: xs' => Some (last xs' x)
  end.

(** ** Vector store (src/app/page.tsx) *)

Record Document : Type := mkDocument {
  pageContent : string
}.

(** The Chroma collection as seen by the [try] block of
    [searchSimilarDocuments]: embedding the query, fetching the collection
    and querying it either throws (any value, [undefined] included) or
    yields, per returned id, the optional document text
    ([results.documents?.[0]?.[i]]). *)
Definition VectorDB : Type := string -> nat -> Res (list (option string)).

(** [searchSimilarDocuments]: the [catch] logs [error.message] (a read that
    throws a TypeError on [undefined]/[null]) and rethrows. *)
Definition searchSimilarDocuments (db : VectorDB) (query : string) (k : nat)
    : Res (list Document) :=
  match db query k with
  | Ok docs =>
      Ok (map (fun d => mkDocument (match js_or d (Some EmptyString) with
                                    | Some s => s
                                    | None => EmptyString
                                    end)) docs)
  | Throw error => if is_nullish error then Throw TypeError_read else Throw error
  end.

(** [addDocumentsToVectorStore]: [stamps i] is the value of [Date.now()]
    when the id of the [i]-th text is generated; [addDocuments] is the
    store's insertion. *)
Definition addDocumentsToVectorStore
    (addDocuments : list Document -> list string -> Res unit)
    (stamps : nat -> Z) (texts : list string) : Res (list string) :=
  let documents := map mkDocument texts in
  let ids := map_index (fun _ index => "doc-" ^ Z_to_string (stamps index) ^ "-"
                                        ^ nat_to_string index) texts 0 in
  match addDocuments documents ids with
  | Ok _ => Ok ids
  | Throw e => Throw e
  end.

(** ** RAGModel (src/core/models/ragModel.ts) *)

Module RAGModel.

(** The options used by the decision rule: [enableRAG] and
    [ragThreshold] (an integer, as configured message lengths are). *)
Record RAGOptions : Type := mkRAGOptions {
  enableRAG : bool;
  ragThreshold : Z;
  k : nat
}.

(** The constructor's defaults: [enableRAG !== false], [ragThreshold || 0],
    [k || 4]. *)
Definition make_options (enable : option bool) (threshold : option Z) (k0 : option nat)
    : RAGOptions :=
  mkRAGOptions
    (match enable with Some false => false | _ => true end)
    (match threshold with Some t => t | None => 0%Z end)
    (match k0 with Some (S n) => S n | _ => 4 end).

(** [message.length] *)
Definition js_length (s : string) : Z := Z.of_nat (String.length s).

(** [shouldUseRAG] *)
Definition shouldUseRAG (o : RAGOptions) (message : string) : bool :=
  if negb (enableRAG o) then false
  else if (0 <? ragThreshold o)%Z then (ragThreshold o <=? js_length message)%Z
  else true.

(** [enhanceMessageWithRAG]: the [catch] handler logs [error.message],
    [error.stack] and [error.constructor.name] before returning the
    original message; reading them throws on [undefined]/[null]. *)
Definition enhanceMessageWithRAG (o : RAGOptions) (db : VectorDB) (message : string)
    : Res string :=
  match searchSimilarDocuments db message (k o) with
  | Ok retrievedDocs =>
      let retrievedDocuments :=
        map (fun doc => mkRetrievedDoc (pageContent doc) [])
            (filter (fun doc => truthy (Some (pageContent doc))) retrievedDocs) in
      Ok (buildRAGPrompt message retrievedDocuments)
  | Throw error =>
      if is_nullish error then Throw TypeError_read else Ok message
  end.

(** The shared prelude of [streamChat] and [createStreamingResponse]
    (lines 454-471 and 487-504 are the same code): the history handed to
    the parent method, or the exception that rejects the call. *)
Definition delegated_messages (o : RAGOptions) (db : VectorDB)
    (messages : list ChatMessage) : Res (list ChatMessage) :=
  match js_last messages with
  | Some lastMessage =>
      if (match role lastMessage with user => true | assistant => false end)
         && shouldUseRAG o (content lastMessage) then
        match enhanceMessageWithRAG o db (content lastMessage) with
        | Ok enhancedContent =>
            Ok (removelast messages ++ [mkChatMessage user enhancedContent])
        | Throw e => Throw e
        end
      else Ok messages
  | None => Ok messages
  end.

(** [RAGModel.streamChat]: the chunks of the parent's [streamChat] on the
    delegated history. *)
Definition streamChat (o : RAGOptions) (db : VectorDB) (model : ChatModel)
    (systemPrompt : string) (messages : list ChatMessage) : Res (list StreamChunk) :=
  match delegated_messages o db messages with
  | Ok enhancedMessages => Ok (OllamaModel.streamChat model systemPrompt enhancedMessages)
  | Throw e => Throw e
  end.

(** [RAGModel.createStreamingResponse] *)
Definition createStreamingResponse (o : RAGOptions) (db : VectorDB) (model : ChatModel)
    (toolMap : ToolMap) (systemPrompt : string) (messages : list ChatMessage)
    : Res (list Ctl) :=
  match delegated_messages o db messages with
  | Ok enhancedMessages =>
      Ok (OllamaModel.createStreamingResponse model toolMap systemPrompt enhancedMessages)
  | Throw e => Throw e
  end.

End RAGModel.

(** ** Observations on runs used by the statements *)

Definition end_result (s : FragStream) : Res unit :=
  match stream_end s with None => Ok tt | Some e => Throw e end.

(** The chunks of the post-tool pass for one fragment. *)
Definition content_chunks (f : Fragment) : list StreamChunk :=
  match frag_content f with
  | Some c => if truthy (Some c) then [CContent c] else []
  | None => []
  end.

Definition is_error_chunk (c : StreamChunk) : bool :=
  match c with CError _ => true | _ => false end.

Definition frames_of (t : list Ctl) : list Frame :=
  flat_map (fun x => match x with Enqueue f => [f] | CloseStream => [] end) t.

Definition concat_str (xs : list string) : string := fold_right String.append EmptyString xs.

Definition is_done_frame (f : Frame) : bool :=
  match f with FDone => true | FChunk _ => false end.

Definition is_error_frame (f : Frame) : bool :=
  match f with FChunk c => is_error_chunk c | FDone => false end.

(** Every element satisfying [P] is directly preceded by one satisfying [Q]. *)
Definition follows {X : Type} (P Q : X -> Prop) (l : list X) : Prop :=
  forall pre x post, l = pre ++ x :: post -> P x ->
  exists pre' y, pre = pre' ++ [y] /\ Q y.

Definition is_thinking (c : StreamChunk) : Prop := exists t, c = CThinking t.
Definition is_content (c : StreamChunk) : Prop := exists s, c = CContent s.

Definition tool_message_id (m : BaseMessage) : option string :=
  match m with ToolMessage _ id => Some id | _ => None end.

Fixpoint has_dash (s : string) : bool :=
  match s with
  | EmptyString => false
  | String c s' => Ascii.eqb c "-" || has_dash s'
  end.

(** The id generated for the [index]-th text. *)
Definition doc_id (stamps : nat -> Z) (index : nat) : string :=
  "doc-" ^ Z_to_string (stamps index) ^ "-" ^ nat_to_string index.

(** ** Concrete runs *)

Definition sample_messages : list ChatMessage :=
  [mkChatMessage assistant "hi"; mkChatMessage user "what time is it?"].

Definition sample_fragments : FragStream :=
  mkFragStream [mkFragment (Some "It is ") None (Some "checking the clock");
                mkFragment (Some EmptyString) (Some "ignored") None;
                mkFragment (Some "noon.") None None] None.

Definition sample_toolMap : ToolMap :=
  build_toolMap [("get_current_time", fun _ => Ok "2026-10-15 12:00:00");
                 ("get_current_timestamp", fun _ => Throw (JError "Error" "clock"))].

Definition sample_calls : list ToolCall :=
  [mkToolCall "get_current_time" "{}" "call_1";
   mkToolCall "get_weather" "{}" "call_2";
   mkToolCall "get_current_timestamp" "{}" "call_3"].

(** A model that answers directly. *)
Definition plain_model : ChatModel :=
  mkChatModel (fun _ => Ok (mkAIResponse "It is noon." []))
              (fun _ => Ok sample_fragments).

(** A model that first requests tools. *)
Definition tool_model : ChatModel :=
  mkChatModel (fun _ => Ok (mkAIResponse EmptyString sample_calls))
              (fun _ => Ok sample_fragments).

(** A model whose stream breaks after its fragments. *)
Definition failing_model : ChatModel :=
  mkChatModel (fun _ => Ok (mkAIResponse "It is noon." []))
              (fun _ => Ok (mkFragStream (frags sample_fragments)
                                         (Some (JError "Error" "socket hang up")))).

Definition sample_options : RAGModel.RAGOptions := RAGModel.make_options None None None.

Definition sample_db : VectorDB := fun _ _ => Ok [Some "Noon is 12:00."; None].

Definition failing_db : VectorDB := fun _ _ => Throw JUndefined.


(** ** The chat client's stream reader (src/app/page.tsx, [handleSubmit]) *)

Definition is_nl (c : ascii) : bool := Nat.eqb (nat_of_ascii c) 10.

Definition cons_head (c : ascii) (xs : list string) : list string :=
  match xs with
  | [] => [String c EmptyString]
  | x :: xs' => String c x :: xs'
  end.

(** [s.split] on a blank line (two newlines): the separator is searched from left to right and
    every occurrence ends a piece. *)
Fixpoint split_blank (s : string) : list string :=
  match s with
  | EmptyString => [EmptyString]
  | String a rest =>
      match rest with
      | String b s' =>
          if is_nl a && is_nl b then EmptyString :: split_blank s'
          else cons_head a (split_blank rest)
      | EmptyString => cons_head a (split_blank rest)
      end
  end.

(** [interface Message] *)
Record Message : Type := mkMessage {
  msg_role : Role;
  msg_content : string;
  msg_thinking : option string
}.

(** The properties [type], [content] and [error] of [JSON.parse(data)],
    each a string or absent.  [JSON.parse] is a parameter of the reader:
    [None] stands for a parse that throws or yields [null]. *)
Record Parsed : Type := mkParsed {
  p_type : option string;
  p_content : option string;
  p_error : option string
}.

(** [s + v] for a string [s] and a string-or-undefined [v]. *)
Definition js_concat_opt (s : string) (v : option string) : string :=
  s ^ match v with Some x => x | None => "undefined" end.

(** The [setMessages] updaters: the last message is replaced when it is an
    assistant message. *)
Definition update_last (f : Message -> Message) (prev : list Message) : list Message :=
  match js_last prev with
  | Some lastMessage =>
      match msg_role lastMessage with
      | assistant => removelast prev ++ [f lastMessage]
      | user => prev
      end
  | None => prev
  end.

Definition append_content (c : option string) (m : Message) : Message :=
  mkMessage (msg_role m) (js_concat_opt (msg_content m) c) (msg_thinking m).

Definition append_thinking (c : option string) (m : Message) : Message :=
  mkMessage (msg_role m) (msg_content m)
    (Some (js_concat_opt (match js_or (msg_thinking m) (Some EmptyString) with
                          | Some t => t
                          | None => EmptyString
                          end) c)).

(** One line of the inner [for] loop: the new messages, and whether the
    handler returned ([data === "[DONE]"]).  The [Error] thrown for an
    [error] chunk is caught by the surrounding [catch] ("Skip invalid
    JSON"), as is a failing parse. *)
Definition handle_line (parse : string -> option Parsed) (line : string)
    (msgs : list Message) : list Message * bool :=
  if String.prefix "data: " line then
    let data := substring 6 (String.length line - 6) line in
    if String.eqb data "[DONE]" then (msgs, true)
    else
      match parse data with
      | Some parsed =>
          match p_type parsed with
          | Some ty =>
              if String.eqb ty "content" then
                (update_last (append_content (p_content parsed)) msgs, false)
              else if String.eqb ty "thinking" then
                (update_last (append_thinking (p_content parsed)) msgs, false)
              else (msgs, false)
          | None => (msgs, false)
          end
      | None => (msgs, false)
      end
  else (msgs, false).

Fixpoint handle_lines (parse : string -> option Parsed) (lines : list string)
    (msgs : list Message) : list Message * bool :=
  match lines with
  | [] => (msgs, false)
  | line :: lines' =>
      let (msgs', stop) := handle_line parse line msgs in
      if stop then (msgs', true) else handle_lines parse lines' msgs'
  end.

(** The [while (true)] loop: [reads] are the strings
    [decoder.decode(value, { stream: true })] of the successive reads. *)
Fixpoint read_loop (parse : string -> option Parsed) (buffer : string)
    (reads : list string) (msgs : list Message) : list Message * bool :=
  match reads with
  | [] => (msgs, false)
  | value :: reads' =>
      let lines := split_blank (buffer ^ value) in
      let buffer' := match js_or (js_last lines) (Some EmptyString) with
                     | Some b => b
                     | None => EmptyString
                     end in
      let (msgs', stop) := handle_lines parse (removelast lines) msgs in
      if stop then (msgs', true) else read_loop parse buffer' reads' msgs'
  end.

(** From the assistant placeholder to the end of the reply: the messages,
    and whether the reply ended with [[DONE]]. *)
Definition receive (parse : string -> option Parsed) (reads : list string)
    (prev : list Message) : list Message * bool :=
  read_loop parse EmptyString reads
    (prev ++ [mkMessage assistant EmptyString (Some EmptyString)]).

(** What [JSON.parse] yields for the JSON text of a chunk. *)
Definition parsed_of (c : StreamChunk) : Parsed :=
  match c with
  | CContent s => mkParsed (Some "content") (Some s) None
  | CThinking s => mkParsed (Some "thinking") (Some s) None
  | CError e => mkParsed (Some "error") None (Some e)
  end.

Fixpoint content_text (cs : list StreamChunk) : string :=
  match cs with
  | [] => EmptyString
  | CContent s :: cs' => s ^ content_text cs'
  | _ :: cs' => content_text cs'
  end.

Fixpoint thinking_text (cs : list StreamChunk) : string :=
  match cs with
  | [] => EmptyString
  | CThinking s :: cs' => s ^ thinking_text cs'
  | _ :: cs' => thinking_text cs'
  end.

Definition frame_chunks (fs : list Frame) : list StreamChunk :=
  flat_map (fun f => match f with FChunk c => [c] | FDone => [] end) fs.

Fixpoint has_nl (s : string) : bool :=
  match s with
  | EmptyString => false
  | String c s' => is_nl c || has_nl s'
  end.

(** The line of a frame, without its terminating blank line. *)
Definition frame_line (f : Frame) : string :=
  match f with
  | FChunk c => "data: " ^ chunk_json c
  | FDone => "data: [DONE]"
  end.

(** A [JSON.parse] for objects whose values are strings, without
    insignificant whitespace (the objects the server sends): the escapes
    of quote, backslash, slash, b, f, n, r, t and [\u00XX]. *)
Definition hex_val (c : ascii) : option nat :=
  let n := nat_of_ascii c in
  if (Nat.leb 48 n) && (Nat.leb n 57) then Some (n - 48)
  else if (Nat.leb 97 n) && (Nat.leb n 102) then Some (n - 87)
  else if (Nat.leb 65 n) && (Nat.leb n 70) then Some (n - 55)
  else None.

Definition simple_escape (e : ascii) : option nat :=
  let m := nat_of_ascii e in
  if Nat.eqb m 34 then Some 34 else if Nat.eqb m 92 then Some 92 else if Nat.eqb m 47 then Some 47
  else if Nat.eqb m 98 then Some 8 else if Nat.eqb m 102 then Some 12 else if Nat.eqb m 110 then Some 10
  else if Nat.eqb m 114 then Some 13 else if Nat.eqb m 116 then Some 9 else None.

Definition push (c : ascii) (r : option (string * string)) : option (string * string) :=
  match r with Some (v, rest) => Some (String c v, rest) | None => None end.

(** The characters of a JSON string after its opening quote: the value and
    what follows the closing quote. *)
Fixpoint json_str_body (s : string) : option (string * string) :=
  match s with
  | EmptyString => None
  | String c rest =>
      let n := nat_of_ascii c in
      if Nat.eqb n 34 then Some (EmptyString, rest)
      else if Nat.eqb n 92 then
        match rest with
        | String e rest2 =>
            match simple_escape e with
            | Some code => push (ascii_of_nat code) (json_str_body rest2)
            | None =>
                if Nat.eqb (nat_of_ascii e) 117 then
                  match rest2 with
                  | String h1 (String h2 (String h3 (String h4 rest3))) =>
                      match hex_val h1, hex_val h2, hex_val h3, hex_val h4 with
                      | Some 0, Some 0, Some d3, Some d4 =>
                          push (ascii_of_nat (16 * d3 + d4)) (json_str_body rest3)
                      | _, _, _, _ => None
                      end
                  | _ => None
                  end
                else None
            end
        | EmptyString => None
        end
      else if Nat.ltb n 32 then None
      else push c (json_str_body rest)
  end.

Definition is_char (c : ascii) (n : nat) : bool := Nat.eqb (nat_of_ascii c) n.

(** The members of an object, from after the opening quote of the first
    key to the closing brace, which ends the text. *)
Fixpoint json_members (fuel : nat) (s : string) : option (list (string * string)) :=
  match fuel with
  | O => None
  | S fuel' =>
      match json_str_body s with
      | Some (key, String colon (String q rest)) =>
          if is_char colon 58 && is_char q 34 then
            match json_str_body rest with
            | Some (v, String sep rest') =>
                if is_char sep 125 then
                  match rest' with EmptyString => Some [(key, v)] | _ => None end
                else if is_char sep 44 then
                  match rest' with
                  | String q' rest'' =>
                      if is_char q' 34 then
                        match json_members fuel' rest'' with
                        | Some kvs => Some ((key, v) :: kvs)
                        | None => None
                        end
                      else None
                  | EmptyString => None
                  end
                else None
            | _ => None
            end
          else None
      | _ => None
      end
  end.

(** The last value of a key (later duplicates win in [JSON.parse]). *)
Definition json_get (kvs : list (string * string)) (key : string) : option string :=
  fold_left (fun acc kv => if String.eqb (fst kv) key then Some (snd kv) else acc) kvs None.

Definition json_parse_flat (s : string) : option Parsed :=
  let obj kvs := Some (mkParsed (json_get kvs "type") (json_get kvs "content")
                                (json_get kvs "error")) in
  match s with
  | String o (String q rest) =>
      if is_char o 123 && is_char q 34 then
        match json_members (String.length rest) rest with
        | Some kvs => obj kvs
        | None => None
        end
      else if is_char o 123 && is_char q 125 then
        match rest with EmptyString => obj [] | _ => None end
      else None
  | _ => None
  end.


(** ** The retrieval chain (src/core/rag/textSplitter.ts) *)

(** The objects passed to [onChunk] by [executeRetrievalChainStream];
    documents are given by their content (their metadata, which
    [buildPrompt] does not read, is not modelled). *)
Inductive ChainEvent : Type :=
| ERetrieval (content : string) (documents : option (list string))
| EContent (content : string)
| EError (error : string).

(** [retrievedDocs.map((doc) => ({ content: doc.pageContent, ... }))] *)
Definition to_retrieved (docs : list Document) : list RetrievedDoc :=
  map (fun doc => mkRetrievedDoc (pageContent doc) []) docs.

(** The user history handed to [model.streamChat]. *)
Definition chain_messages (query : string) (docs : list Document) : list ChatMessage :=
  [mkChatMessage user (buildPrompt query (to_retrieved docs))].

(** The [onChunk] callback given to [streamChat] by the streaming chain. *)
Definition forward_chain (chunk : StreamChunk) : list ChainEvent :=
  match chunk with
  | CContent c => [EContent c]
  | CError e => [EError e]
  | CThinking _ => []
  end.

(** [error.message ||] the default text in the [catch]: a thrown value that
    is not an [Error] is taken to have no [message] property, as
    primitives do; on [undefined] or [null] the read throws. *)
Definition chain_error_message (error : JsVal) : Res string :=
  match error with
  | JUndefined | JNull => Throw TypeError_read
  | JError _ msg => Ok (if String.eqb msg EmptyString then "检索链执行失败" else msg)
  | JPrim _ => Ok "检索链执行失败"
  end.

(** [executeRetrievalChainStream]: the events, in order, and how the
    returned promise settles.  [systemPrompt] is the one of
    [new OllamaModel()]; [k] the option's value (default 4). *)
Definition executeRetrievalChainStream (db : VectorDB) (model : ChatModel)
    (systemPrompt : string) (query : string) (k : nat) : list ChainEvent * Res unit :=
  let notice := ERetrieval "正在检索相关文档..." None in
  match searchSimilarDocuments db query k with
  | Ok retrievedDocs =>
      let retrievedDocuments := to_retrieved retrievedDocs in
      (notice ::
       ERetrieval ("检索到 " ^ nat_to_string (length retrievedDocuments) ^ " 个相关文档")
                  (Some (map doc_content retrievedDocuments)) ::
       flat_map forward_chain
         (OllamaModel.streamChat model systemPrompt (chain_messages query retrievedDocs)),
       Ok tt)
  | Throw error =>
      match chain_error_message error with
      | Ok msg => ([notice; EError msg], Ok tt)
      | Throw e => ([notice], Throw e)
      end
  end.

(** [RetrievalResult] (documents by their content). *)
Record RetrievalResult : Type := mkRetrievalResult {
  r_query : string;
  r_documents : list string;
  r_answer : string
}.

(** The callback of [executeRetrievalChain]: [answer += chunk.content ||] the empty string
    on content; the first error chunk rejects the promise with
    [new Error(chunk.error)]. *)
Fixpoint collect_answer (chunks : list StreamChunk) (answer : string) : Res string :=
  match chunks with
  | [] => Ok answer
  | CContent c :: chunks' =>
      collect_answer chunks'
        (answer ^ match js_or (Some c) (Some EmptyString) with Some x => x | None => EmptyString end)
  | CThinking _ :: chunks' => collect_answer chunks' answer
  | CError e :: _ => Throw (JError "Error" e)
  end.

(** [executeRetrievalChain] *)
Definition executeRetrievalChain (db : VectorDB) (model : ChatModel)
    (systemPrompt : string) (query : string) (k : nat) : Res RetrievalResult :=
  match searchSimilarDocuments db query k with
  | Ok retrievedDocs =>
      let retrievedDocuments := to_retrieved retrievedDocs in
      match collect_answer
              (OllamaModel.streamChat model systemPrompt (chain_messages query retrievedDocs))
              EmptyString with
      | Ok answer => Ok (mkRetrievalResult query (map doc_content retrievedDocuments) answer)
      | Throw e => Throw e
      end
  | Throw e => Throw e
  end.

Definition is_error_event (e : ChainEvent) : bool :=
  match e with EError _ => true | _ => false end.

Fixpoint content_events (evs : list ChainEvent) : string :=
  match evs with
  | [] => EmptyString
  | EContent c :: evs' => c ^ content_events evs'
  | _ :: evs' => content_events evs'
  end.


(** ** RAGModel options state (src/core/models/ragModel.ts) *)

(** [Partial<RAGModelOptions>]: every field may be [undefined]. *)
Module PartialOptions.
Record t : Type := mk {
  collectionName : option string;
  embeddingType : option string;
  k : option nat;
  chromaHost : option string;
  chromaPort : option Z;
  embeddingModel : option string;
  embeddingApiKey : option string;
  embeddingBaseUrl : option string;
  enableRAG : option bool;
  ragThreshold : option Z
}.

Definition empty : t := mk None None None None None None None None None None.
End PartialOptions.

(** [this.ragOptions] *)
Module RAGState.
Record t : Type := mk {
  collectionName : string;
  embeddingType : string;
  k : nat;
  chromaHost : string;
  chromaPort : Z;
  embeddingModel : option string;
  embeddingApiKey : option string;
  embeddingBaseUrl : option string;
  enableRAG : bool;
  ragThreshold : Z
}.

(** [if (options.f !== undefined) this.ragOptions.f = options.f] *)
Definition set_if {A} (o : option A) (old : A) : A :=
  match o with Some v => v | None => old end.

(** [updateRAGOptions]: the assignments in source order. *)
Definition updateRAGOptions (s : t) (options : PartialOptions.t) : t :=
  let s1 := mk (set_if (PartialOptions.collectionName options) (collectionName s))
               (embeddingType s) (k s) (chromaHost s) (chromaPort s) (embeddingModel s)
               (embeddingApiKey s) (embeddingBaseUrl s) (enableRAG s) (ragThreshold s) in
  let s2 := mk (collectionName s1) (embeddingType s1) (set_if (PartialOptions.k options) (k s1))
               (chromaHost s1) (chromaPort s1) (embeddingModel s1) (embeddingApiKey s1)
               (embeddingBaseUrl s1) (enableRAG s1) (ragThreshold s1) in
  let s3 := mk (collectionName s2) (embeddingType s2) (k s2) (chromaHost s2) (chromaPort s2)
               (embeddingModel s2) (embeddingApiKey s2) (embeddingBaseUrl s2)
               (set_if (PartialOptions.enableRAG options) (enableRAG s2)) (ragThreshold s2) in
  let s4 := mk (collectionName s3) (embeddingType s3) (k s3) (chromaHost s3) (chromaPort s3)
               (embeddingModel s3) (embeddingApiKey s3) (embeddingBaseUrl s3) (enableRAG s3)
               (set_if (PartialOptions.ragThreshold options) (ragThreshold s3)) in
  let s5 := mk (collectionName s4) (embeddingType s4) (k s4)
               (set_if (PartialOptions.chromaHost options) (chromaHost s4)) (chromaPort s4)
               (embeddingModel s4) (embeddingApiKey s4) (embeddingBaseUrl s4) (enableRAG s4)
               (ragThreshold s4) in
  let s6 := mk (collectionName s5) (embeddingType s5) (k s5) (chromaHost s5)
               (set_if (PartialOptions.chromaPort options) (chromaPort s5))
               (embeddingModel s5) (embeddingApiKey s5) (embeddingBaseUrl s5) (enableRAG s5)
               (ragThreshold s5) in
  let s7 := mk (collectionName s6) (set_if (PartialOptions.embeddingType options) (embeddingType s6))
               (k s6) (chromaHost s6) (chromaPort s6) (embeddingModel s6) (embeddingApiKey s6)
               (embeddingBaseUrl s6) (enableRAG s6) (ragThreshold s6) in
  mk (collectionName s7) (embeddingType s7) (k s7) (chromaHost s7) (chromaPort s7)
     (match PartialOptions.embeddingModel options with
      | Some m => Some m
      | None => embeddingModel s7
      end)
     (embeddingApiKey s7) (embeddingBaseUrl s7) (enableRAG s7) (ragThreshold s7).

(** The fields read by [shouldUseRAG] and [enhanceMessageWithRAG]. *)
Definition decision_options (s : t) : RAGModel.RAGOptions :=
  RAGModel.mkRAGOptions (enableRAG s) (ragThreshold s) (k s).
End RAGState.

(** The tool of the last registration under a name. *)
Definition last_registered (tools : list (string * Tool)) (name : string) : option Tool :=
  fold_left (fun acc nt => if String.eqb (fst nt) name then Some (snd nt) else acc) tools None.


Definition sample_bytes : string :=
  stream_bytes (OllamaModel.createStreamingResponse plain_model sample_toolMap "sys" sample_messages).

Definition failed_bytes : string :=
  stream_bytes (OllamaModel.createStreamingResponse failing_model sample_toolMap "sys" sample_messages).

(** The bytes cut into reads at arbitrary places. *)
Definition cut (ns : list nat) (s : string) : list string :=
  let fix go ns s :=
    match ns with
    | [] => [s]
    | n :: ns' => substring 0 n s :: go ns' (substring n (String.length s - n) s)
    end in
  go ns s.


(** ** Embeddings (src/core/rag/embedding.ts) *)

(** [String.prototype.includes] *)
Fixpoint js_includes (s sub : string) : bool :=
  String.prefix sub s ||
  match s with
  | EmptyString => false
  | String _ s' => js_includes s' sub
  end.

(** The options argument of the embedding functions; an absent [options]
    reads as all fields [undefined]. *)
Record EmbedOptions : Type := mkEmbedOptions {
  e_apiKey : option string;
  e_model : option string;
  e_baseUrl : option string
}.

(** The environment variables read by [createEmbeddings]. *)
Record EmbedEnv : Type := mkEmbedEnv {
  OLLAMA_EMBEDDING_MODEL : option string;
  OLLAMA_BASE_URL : option string;
  OPENAI_API_KEY : option string
}.

(** The embedder built by [createEmbeddings], with its configuration. *)
Inductive Embedder : Type :=
| OllamaEmbeddings (model baseUrl : string)
| OpenAIEmbeddings (model : string) (openAIApiKey : option string).

(** The value of [a ||] a default string. *)
Definition or_default (a : option string) (d : string) : string :=
  match js_or a (Some d) with Some s => s | None => d end.

(** [createEmbeddings] *)
Definition createEmbeddings (type : string) (options : EmbedOptions) (env : EmbedEnv)
    : Embedder :=
  if String.eqb type "ollama" then
    let defaultModel :=
      or_default (js_or (e_model options) (OLLAMA_EMBEDDING_MODEL env)) "nomic-embed-text" in
    OllamaEmbeddings defaultModel
      (or_default (js_or (e_baseUrl options) (OLLAMA_BASE_URL env)) "http://localhost:11434")
  else
    OpenAIEmbeddings (or_default (e_model options) "text-embedding-3-small")
      (js_or (e_apiKey options) (OPENAI_API_KEY env)).

(** [error?.message?.includes(sub)]: only an [Error] has a message. *)
Definition message_includes (error : JsVal) (sub : string) : bool :=
  match error with
  | JError _ msg => js_includes msg sub
  | _ => false
  end.

(** [embedDocuments]: [embedWith e texts] is [e.embedDocuments(texts)] on
    the embedder [e]; its vectors are of any type [V]. *)
Definition embedDocuments {V : Type} (embedWith : Embedder -> list string -> Res (list V))
    (texts : list string) (type : string) (options : EmbedOptions) (env : EmbedEnv)
    : Res (list V) :=
  match embedWith (createEmbeddings type options env) texts with
  | Ok vs => Ok vs
  | Throw error =>
      if String.eqb type "ollama" && message_includes error "not found" then
        let modelName :=
          or_default (js_or (e_model options) (OLLAMA_EMBEDDING_MODEL env)) "nomic-embed-text" in
        Throw (JError "Error"
                 ("Ollama 嵌入模型 " ^ dq ^ modelName ^ dq ^ " 未找到。请先运行: ollama pull "
                  ^ modelName ^ nl ^ "或者使用其他模型，如: ollama pull all-minilm"))
      else Throw error
  end.

(** An element of the array returned by [embedChunks]; [embeddings[index]]
    is [undefined] past the end of the vectors. *)
Record EmbeddedChunk {V : Type} : Type := mkEmbeddedChunk {
  ec_text : string;
  ec_embedding : option V;
  ec_index : nat
}.
Arguments EmbeddedChunk : clear implicits.

(** [embedChunks] *)
Definition embedChunks {V : Type} (embedWith : Embedder -> list string -> Res (list V))
    (chunks : list string) (type : string) (options : EmbedOptions) (env : EmbedEnv)
    : Res (list (EmbeddedChunk V)) :=
  match embedDocuments embedWith chunks type options env with
  | Ok embeddings =>
      Ok (map_index (fun text index => mkEmbeddedChunk V text (nth_error embeddings index) index)
                    chunks 0)
  | Throw e => Throw e
  end.

(** ** The system prompt (src/core/models/ollamaModel.ts, constructor) *)

(** The prompt is handled as the UTF-16 code units of the JavaScript string
    ([readFileSync] decodes the file). *)

(** LineTerminator: what [^], [$] (multiline) and [.] look at. *)
Definition is_line_terminator (c : Z) : bool :=
  Z.eqb c 10 || Z.eqb c 13 || Z.eqb c 8232 || Z.eqb c 8233.

(** WhiteSpace and LineTerminator: the class [\s], and what [trim] removes. *)
Definition is_js_space (c : Z) : bool :=
  is_line_terminator c || Z.eqb c 9 || Z.eqb c 11 || Z.eqb c 12 || Z.eqb c 32
  || Z.eqb c 160 || Z.eqb c 5760 || (Z.leb 8192 c && Z.leb c 8202)
  || Z.eqb c 8239 || Z.eqb c 8287 || Z.eqb c 12288 || Z.eqb c 65279.

Definition is_hash (c : Z) : bool := Z.eqb c 35.

(** The scanner of [replace(/^#+\s+.*$/gm, ...)] with the empty string: [HLine at_start] copies
    text ([at_start] when the previous unit is a line terminator or there is
    none); [HHashes n] has read the [n] hashes of a tentative match;
    [HSpaces] and [HRest] are inside a match (in [\s+] and in [.*]).
    A match can only start at a line start; once [#+\s] is read the
    greedy [\s+.*] reaches a line terminator or the end, where [$] holds,
    and the next line start is after that terminator. *)
Inductive HeaderState : Type :=
| HLine (at_start : bool)
| HHashes (n : nat)
| HSpaces
| HRest.

Fixpoint strip_headers (st : HeaderState) (s : list Z) : list Z :=
  match s with
  | [] => match st with HHashes n => repeat 35%Z n | _ => [] end
  | c :: rest =>
      match st with
      | HLine true =>
          if is_hash c then strip_headers (HHashes 1) rest
          else c :: strip_headers (HLine (is_line_terminator c)) rest
      | HLine false => c :: strip_headers (HLine (is_line_terminator c)) rest
      | HHashes n =>
          if is_hash c then strip_headers (HHashes (S n)) rest
          else if is_js_space c then strip_headers HSpaces rest
          else repeat 35%Z n ++ c :: strip_headers (HLine (is_line_terminator c)) rest
      | HSpaces =>
          if is_js_space c then strip_headers HSpaces rest else strip_headers HRest rest
      | HRest =>
          if is_line_terminator c then c :: strip_headers (HLine true) rest
          else strip_headers HRest rest
      end
  end.

(** [String.prototype.trim] *)
Fixpoint trim_start (s : list Z) : list Z :=
  match s with
  | c :: r => if is_js_space c then trim_start r else s
  | [] => []
  end.

Fixpoint trim_end (s : list Z) : list Z :=
  match s with
  | [] => []
  | c :: r =>
      match trim_end r with
      | [] => if is_js_space c then [] else [c]
      | r' => c :: r'
      end
  end.

Definition js_trim (s : list Z) : list Z := trim_end (trim_start s).

(** The code units of an ASCII string literal. *)
Definition units_of_string (s : string) : list Z :=
  map (fun c => Z.of_nat (nat_of_ascii c)) (list_ascii_of_string s).

(** [this.systemPrompt] as set by the constructor: the file's text with
    the headers removed and trimmed, or the default when reading fails. *)
Definition load_system_prompt (file : Res (list Z)) : list Z :=
  match file with
  | Ok text => js_trim (strip_headers (HLine true) text)
  | Throw _ => units_of_string "You are a helpful AI assistant."
  end.

(** The text starts with a Markdown heading marker: hashes, then a space. *)
Fixpoint hashes_then_space (s : list Z) : bool :=
  match s with
  | [] => false
  | c :: r => if is_hash c then hashes_then_space r else is_js_space c
  end.

Definition heading_at (s : list Z) : bool :=
  match s with
  | c :: r => is_hash c && hashes_then_space r
  | [] => false
  end.

(** Some line of the text starts with a heading marker ([at_start]: the
    text itself starts at a line start); these are exactly the positions
    where [/^#+\s+.*$/m] matches. *)
Fixpoint has_heading_line (at_start : bool) (s : list Z) : bool :=
  match s with
  | [] => false
  | c :: r => (at_start && heading_at s) || has_heading_line (is_line_terminator c) r
  end.


(** ** [GetCurrentTimeTool.getFormattedTime] (src/core/tools/GetCurrentTimeTool.ts) *)

(** The local-time fields of [new Date()] read by the function. *)
Record LocalTime : Type := mkLocalTime {
  getFullYear : Z;
  getMonth : nat;
  getDate : nat;
  getHours : nat;
  getMinutes : nat;
  getSeconds : nat
}.

Inductive TimeFormat : Type := TFull | TDate | TTime | TDatetime.

(** [s.padStart(2, ...)] with the digit zero *)
Definition padStart2 (s : string) : string :=
  match String.length s with
  | 0 => "00"
  | 1 => "0" ^ s
  | _ => s
  end.

Definition getFormattedTime (now : LocalTime) (format : TimeFormat) : string :=
  let year := Z_to_string (getFullYear now) in
  let month := padStart2 (nat_to_string (getMonth now + 1)) in
  let day := padStart2 (nat_to_string (getDate now)) in
  let hours := padStart2 (nat_to_string (getHours now)) in
  let minutes := padStart2 (nat_to_string (getMinutes now)) in
  let seconds := padStart2 (nat_to_string (getSeconds now)) in
  match format with
  | TFull => year ^ "-" ^ month ^ "-" ^ day ^ " " ^ hours ^ ":" ^ minutes ^ ":" ^ seconds
  | TDate => year ^ "-" ^ month ^ "-" ^ day
  | TTime => hours ^ ":" ^ minutes ^ ":" ^ seconds
  | TDatetime => year ^ "-" ^ month ^ "-" ^ day ^ " " ^ hours ^ ":" ^ minutes ^ ":" ^ seconds
  end.

(** The two decimal digits of [n < 100]. *)
Definition two_digits (n : nat) : string :=
  String (ascii_of_nat (48 + n / 10)) (String (ascii_of_nat (48 + n mod 10)) EmptyString).

(** An embedder whose vector for a text is its length. *)
Definition length_embedder (_ : Embedder) (ts : list string) : Res (list (list Z)) :=
  Ok (map (fun t => [Z.of_nat (String.length t)]) ts).

(** * Properties *)

(** ** String lemmas *)

Lemma append_assoc_str (a b c : string) : (a ^ b) ^ c = a ^ (b ^ c).
Proof. induction a as [|x a IH]; simpl; [reflexivity | now rewrite IH]. Qed.

Lemma append_empty_r (a : string) : a ^ EmptyString = a.
Proof. induction a as [|x a IH]; simpl; [reflexivity | now rewrite IH]. Qed.

Lemma length_append_str (a b : string) :
  String.length (a ^ b) = String.length a + String.length b.
Proof. induction a as [|x a IH]; simpl; [reflexivity | now rewrite IH]. Qed.

Lemma substring_full (q : string) : substring 0 (String.length q) q = q.
Proof. induction q as [|x q IH]; simpl; [reflexivity | now rewrite IH]. Qed.

Lemma substring_after_prefix (p q : string) (n : nat) :
  substring (String.length p) n (p ^ q) = substring 0 n q.
Proof. induction p as [|x p IH]; simpl; [reflexivity | apply IH]. Qed.

(** A suffix of [s] is the substring of its last characters. *)
Lemma suffix_substring (s p q : string) :
  s = p ^ q ->
  substring (String.length s - String.length q) (String.length q) s = q.
Proof.
  intros ->. rewrite length_append_str.
  replace (String.length p + String.length q - String.length q)
    with (String.length p) by lia.
  rewrite substring_after_prefix. apply substring_full.
Qed.

(** ** Prompt assembly *)

Lemma map_index_length {A B} (f : A -> nat -> B) (xs : list A) (i : nat) :
  length (map_index f xs i) = length xs.
Proof. revert i; induction xs as [|x xs IH]; intros i; simpl; [reflexivity | now rewrite IH]. Qed.

Lemma map_index_nth {A B} (f : A -> nat -> B) (xs : list A) (i j : nat) (x : A) :
  nth_error xs j = Some x -> nth_error (map_index f xs i) j = Some (f x (i + j)).
Proof.
  revert i j; induction xs as [|y xs IH]; intros i j H; destruct j as [|j];
    simpl in *; try discriminate.
  - inversion H; subst. now rewrite Nat.add_0_r.
  - rewrite (IH (S i) j H). now rewrite Nat.add_succ_r.
Qed.

(** ** Claims on the RAG decision rule and the prompt builders *)

(** C2: [shouldUseRAG M] is true exactly when RAG is enabled and the
    threshold is 0 or the message length reaches it. *)
Theorem shouldUseRAG_iff (o : RAGModel.RAGOptions) (message : string) :
  RAGModel.shouldUseRAG o message = true <->
  RAGModel.enableRAG o = true /\
  (RAGModel.ragThreshold o = 0%Z \/
   (RAGModel.ragThreshold o <= RAGModel.js_length message)%Z).
Proof.
  unfold RAGModel.shouldUseRAG, RAGModel.js_length.
  destruct (RAGModel.enableRAG o); simpl.
  - destruct (Z.ltb_spec 0 (RAGModel.ragThreshold o)) as [Hpos | Hnpos].
    + rewrite Z.leb_le. split; [intros H; split; auto | intros [_ [H | H]]; lia].
    + split; [intros _; split; [reflexivity | lia] | auto].
  - split; [discriminate | intros [H _]; discriminate].
Qed.

(** C4 (as stated): the prompt built from the documents ["a"] for the
    query ["Q"] does not end with ["Q"]. *)
Lemma buildRAGPrompt_not_ends_with_query :
  ~ exists p, buildRAGPrompt "Q" [mkRetrievedDoc "a" []] = p ^ "Q".
Proof.
  intros [p H]. apply suffix_substring in H. vm_compute in H. discriminate.
Qed.

(** C4 (amended): for a non-empty document list both builders produce the
    same text: the fixed header, then the sections, the [i]-th being the
    label [[文档 i+1]], a newline and the [i]-th document's content, joined
    by a blank line, then a blank line, [用户问题：], the query, and the fixed
    instruction suffix. *)
Theorem buildPrompt_layout (query : string) (docs : list RetrievedDoc) :
  docs <> [] ->
  let sections := map_index section docs 0 in
  buildRAGPrompt query docs = buildPrompt query docs /\
  buildPrompt query docs =
    prompt_header ^ js_join (nl ^ nl) sections ^ nl ^ nl ^ "用户问题：" ^ query
    ^ prompt_suffix /\
  length sections = length docs /\
  (forall i d, nth_error docs i = Some d ->
     nth_error sections i =
       Some ("[文档 " ^ nat_to_string (i + 1) ^ "]" ^ nl ^ doc_content d)).
Proof.
  intros Hne sections. split; [|split; [|split]].
  - destruct docs; [congruence | reflexivity].
  - reflexivity.
  - apply map_index_length.
  - intros i d H. unfold sections. now rewrite (map_index_nth _ _ 0 i d H).
Qed.

Lemma buildPrompt_layout_witness :
  [mkRetrievedDoc "a" []] <> [] /\
  buildRAGPrompt "Q" [mkRetrievedDoc "a" []] = buildPrompt "Q" [mkRetrievedDoc "a" []].
Proof.
  split; [discriminate|].
  exact (proj1 (buildPrompt_layout "Q" [mkRetrievedDoc "a" []] ltac:(discriminate))).
Defined.

(** C5: [buildRAGPrompt Q []] is [Q], but the retrieval chain's
    [buildPrompt Q []] still applies the template. *)
Theorem buildPrompt_empty_not_bypassed :
  (forall query, buildRAGPrompt query [] = query) /\ buildPrompt "Q" [] <> "Q".
Proof. split; [reflexivity | vm_compute; discriminate]. Qed.

(** ** The RAG decorator *)

Lemma js_last_app {A} (pre : list A) (x : A) : js_last (pre ++ [x]) = Some x.
Proof.
  destruct pre as [|y pre]; simpl; [reflexivity|].
  f_equal. now rewrite last_last.
Qed.

Lemma js_last_split {A} (xs : list A) (x : A) :
  js_last xs = Some x -> xs = removelast xs ++ [x].
Proof.
  destruct xs as [|y xs]; simpl; intros H; [discriminate|].
  inversion H; subst.
  replace (last xs y) with (last (y :: xs) y) by (destruct xs; reflexivity).
  apply app_removelast_last. discriminate.
Qed.

Lemma js_last_None {A} (xs : list A) : js_last xs = None -> xs = [].
Proof. destruct xs; simpl; congruence. Qed.

(** The rewritten history of the decorator, case by case. *)
Lemma delegated_messages_rewrite o db pre lastMessage enhancedContent :
  role lastMessage = user ->
  RAGModel.shouldUseRAG o (content lastMessage) = true ->
  RAGModel.enhanceMessageWithRAG o db (content lastMessage) = Ok enhancedContent ->
  RAGModel.delegated_messages o db (pre ++ [lastMessage]) =
    Ok (pre ++ [mkChatMessage user enhancedContent]).
Proof.
  intros Hrole Huse Henh. unfold RAGModel.delegated_messages.
  rewrite js_last_app, Hrole, Huse, Henh. simpl.
  now rewrite removelast_last.
Qed.

Lemma delegated_messages_keep o db messages :
  (js_last messages = None \/
   exists lastMessage, js_last messages = Some lastMessage /\
     (role lastMessage = assistant \/
      RAGModel.shouldUseRAG o (content lastMessage) = false)) ->
  RAGModel.delegated_messages o db messages = Ok messages.
Proof.
  unfold RAGModel.delegated_messages.
  intros [H | [lastMessage [H [Hr | Hr]]]]; rewrite H; [reflexivity | |].
  - now rewrite Hr.
  - rewrite Hr. now rewrite andb_false_r.
Qed.

Lemma rag_methods_delegate o db model toolMap systemPrompt messages history :
  RAGModel.delegated_messages o db messages = Ok history ->
  RAGModel.streamChat o db model systemPrompt messages =
    Ok (OllamaModel.streamChat model systemPrompt history) /\
  RAGModel.createStreamingResponse o db model toolMap systemPrompt messages =
    Ok (OllamaModel.createStreamingResponse model toolMap systemPrompt history).
Proof.
  intros H. unfold RAGModel.streamChat, RAGModel.createStreamingResponse.
  now rewrite H.
Qed.

(** C8: with a last [user] turn that passes [shouldUseRAG], both decorated
    methods call the parent with the same history except that the last
    turn's content is the enhanced content (role [user], earlier turns
    unchanged); with an empty history, a last [assistant] turn or
    [shouldUseRAG] false, they call the parent with the input history. *)
Theorem rag_delegated_history o db model toolMap systemPrompt messages :
  (forall pre lastMessage enhancedContent,
     messages = pre ++ [lastMessage] ->
     role lastMessage = user ->
     RAGModel.shouldUseRAG o (content lastMessage) = true ->
     RAGModel.enhanceMessageWithRAG o db (content lastMessage) = Ok enhancedContent ->
     RAGModel.delegated_messages o db messages =
       Ok (pre ++ [mkChatMessage user enhancedContent]) /\
     RAGModel.streamChat o db model systemPrompt messages =
       Ok (OllamaModel.streamChat model systemPrompt
             (pre ++ [mkChatMessage user enhancedContent])) /\
     RAGModel.createStreamingResponse o db model toolMap systemPrompt messages =
       Ok (OllamaModel.createStreamingResponse model toolMap systemPrompt
             (pre ++ [mkChatMessage user enhancedContent]))) /\
  ((messages = [] \/
    exists pre lastMessage, messages = pre ++ [lastMessage] /\
      (role lastMessage = assistant \/
       RAGModel.shouldUseRAG o (content lastMessage) = false)) ->
   RAGModel.delegated_messages o db messages = Ok messages /\
   RAGModel.streamChat o db model systemPrompt messages =
     Ok (OllamaModel.streamChat model systemPrompt messages) /\
   RAGModel.createStreamingResponse o db model toolMap systemPrompt messages =
     Ok (OllamaModel.createStreamingResponse model toolMap systemPrompt messages)).
Proof.
  split.
  - intros pre lastMessage enhancedContent -> Hrole Huse Henh.
    pose proof (delegated_messages_rewrite o db pre lastMessage enhancedContent
                  Hrole Huse Henh) as Hd.
    split; [exact Hd|]. now apply rag_methods_delegate.
  - intros Hcase.
    assert (Hd : RAGModel.delegated_messages o db messages = Ok messages).
    { apply delegated_messages_keep.
      destruct Hcase as [-> | [pre [lastMessage [-> Hr]]]]; [now left|].
      right. exists lastMessage. split; [apply js_last_app | exact Hr]. }
    split; [exact Hd|]. now apply rag_methods_delegate.
Qed.

(** C3: when the vector store throws (any value, [undefined] included),
    [enhanceMessageWithRAG] returns the message unchanged, and both
    decorated methods call the parent with the unmodified history. *)
Theorem rag_retrieval_failure_swallowed o db model toolMap systemPrompt messages :
  (forall message e, db message (RAGModel.k o) = Throw e ->
     RAGModel.enhanceMessageWithRAG o db message = Ok message) /\
  ((forall lastMessage, js_last messages = Some lastMessage ->
      exists e, db (content lastMessage) (RAGModel.k o) = Throw e) ->
   RAGModel.streamChat o db model systemPrompt messages =
     Ok (OllamaModel.streamChat model systemPrompt messages) /\
   RAGModel.createStreamingResponse o db model toolMap systemPrompt messages =
     Ok (OllamaModel.createStreamingResponse model toolMap systemPrompt messages)).
Proof.
  assert (Henh : forall message e, db message (RAGModel.k o) = Throw e ->
            RAGModel.enhanceMessageWithRAG o db message = Ok message).
  { intros message e H. unfold RAGModel.enhanceMessageWithRAG,
      searchSimilarDocuments. rewrite H.
    destruct e; reflexivity. }
  split; [exact Henh|].
  intros Hfail. apply rag_methods_delegate.
  unfold RAGModel.delegated_messages.
  destruct (js_last messages) as [lastMessage|] eqn:Hl; [|reflexivity].
  destruct (Hfail lastMessage eq_refl) as [e He].
  destruct (match role lastMessage with user => true | assistant => false end
            && RAGModel.shouldUseRAG o (content lastMessage)) eqn:Hc; [|reflexivity].
  rewrite (Henh _ _ He). f_equal.
  apply andb_true_iff in Hc as [Hr _].
  rewrite (js_last_split messages lastMessage Hl) at 2.
  destruct lastMessage as [[|] c]; [reflexivity | discriminate].
Qed.

(** ** The output monad and the streaming loops *)

Lemma bind_ok {A B} (o : list StreamChunk) (a : A) (k : A -> Out B) :
  Out.bind (o, Ok a) k = (o ++ fst (k a), snd (k a)).
Proof. simpl. now destruct (k a). Qed.

Lemma for_each_pure (g : Fragment -> list StreamChunk) (body : Fragment -> Out unit) fs :
  (forall f, body f = (g f, Ok tt)) ->
  for_each fs body = (flat_map g fs, Ok tt).
Proof.
  intros Hb. induction fs as [|f fs IH]; [reflexivity|].
  simpl. rewrite Hb, bind_ok, IH. reflexivity.
Qed.

Lemma for_await_pure (g : Fragment -> list StreamChunk) (body : Fragment -> Out unit) s :
  (forall f, body f = (g f, Ok tt)) ->
  for_await s body = (flat_map g (frags s), end_result s).
Proof.
  intros Hb. unfold for_await. rewrite (for_each_pure g body _ Hb), bind_ok.
  unfold end_result. destruct (stream_end s); simpl; now rewrite app_nil_r.
Qed.

Lemma emit_all_pure (cs : list StreamChunk) :
  fold_right (fun c k => Out.emit c ;;; k) (Out.ret tt) cs = (cs, Ok tt).
Proof.
  induction cs as [|c cs IH]; [reflexivity|].
  cbn [fold_right]. unfold Out.emit at 1. rewrite bind_ok, IH. reflexivity.
Qed.

Lemma forward_full_pure f :
  OllamaModel.forward_full f = (OllamaModel.fragment_chunks f, Ok tt).
Proof. apply emit_all_pure. Qed.

Lemma forward_content_pure f :
  OllamaModel.forward_content f = (content_chunks f, Ok tt).
Proof.
  unfold OllamaModel.forward_content, content_chunks.
  destruct (frag_content f) as [c|]; [destruct (truthy (Some c))|]; reflexivity.
Qed.

(** The [try] body when the first response has no tool call. *)
Lemma start_body_no_tools model toolMap lm resp :
  invoke model lm = Ok resp -> tool_calls resp = [] ->
  OllamaModel.start_body model toolMap lm =
    match stream model lm with
    | Ok s => (flat_map OllamaModel.fragment_chunks (frags s), end_result s)
    | Throw e => ([], Throw e)
    end.
Proof.
  intros Hi Ht. unfold OllamaModel.start_body, Out.await.
  rewrite Hi, bind_ok. simpl fst; simpl snd. rewrite Ht.
  destruct (stream model lm) as [s|e]; simpl; [|reflexivity].
  rewrite (for_await_pure _ _ s forward_full_pure). reflexivity.
Qed.

(** The [try] body when the first response requests tool calls: the
    second invocation streams over the extended history. *)
Lemma start_body_tools model toolMap lm resp :
  invoke model lm = Ok resp -> tool_calls resp <> [] ->
  OllamaModel.start_body model toolMap lm =
    match stream model (lm ++ AIMessage resp ::
                         OllamaModel.executeToolCalls toolMap (tool_calls resp)) with
    | Ok s => (flat_map content_chunks (frags s), end_result s)
    | Throw e => ([], Throw e)
    end.
Proof.
  intros Hi Ht. unfold OllamaModel.start_body, Out.await.
  rewrite Hi, bind_ok. simpl fst; simpl snd.
  destruct (tool_calls resp) as [|tc tcs] eqn:Htc; [congruence|].
  rewrite <- Htc.
  destruct (stream model _) as [s|e]; simpl; [|reflexivity].
  rewrite (for_await_pure _ _ s forward_content_pure). reflexivity.
Qed.

Lemma start_body_invoke_error model toolMap lm e :
  invoke model lm = Throw e ->
  OllamaModel.start_body model toolMap lm = ([], Throw e).
Proof. intros Hi. unfold OllamaModel.start_body, Out.await. now rewrite Hi. Qed.

Lemma fragment_chunks_shape f :
  OllamaModel.fragment_chunks f = [] \/
  exists c, frag_content f = Some c /\
    (OllamaModel.fragment_chunks f = [CContent c] \/
     exists t, OllamaModel.fragment_chunks f = [CContent c; CThinking t]).
Proof.
  unfold OllamaModel.fragment_chunks.
  destruct (frag_content f) as [c|]; [|now left].
  destruct (truthy (Some c)); [|now left].
  right. exists c. split; [reflexivity|].
  destruct (js_or _ _) as [t|]; simpl; [|now left].
  destruct (negb (String.eqb t EmptyString)); [right; now exists t | now left].
Qed.

Lemma fragment_chunks_no_error f c :
  In c (OllamaModel.fragment_chunks f) -> is_error_chunk c = false.
Proof.
  destruct (fragment_chunks_shape f) as [-> | [x [_ [-> | [t ->]]]]]; simpl;
    intuition (subst; reflexivity).
Qed.

Lemma content_chunks_content f c :
  In c (content_chunks f) -> exists s, c = CContent s.
Proof.
  unfold content_chunks. destruct (frag_content f) as [x|]; [|intros []].
  destruct (truthy (Some x)); simpl; [|intros []].
  intros [<- | []]. now exists x.
Qed.

Lemma body_no_error_chunk model toolMap lm c :
  In c (fst (OllamaModel.start_body model toolMap lm)) -> is_error_chunk c = false.
Proof.
  destruct (invoke model lm) as [resp|e] eqn:Hi.
  - destruct (tool_calls resp) as [|tc tcs] eqn:Ht.
    + rewrite (start_body_no_tools _ _ _ _ Hi Ht).
      destruct (stream model lm) as [s|e]; simpl; [|intros []].
      intros Hin. apply in_flat_map in Hin as [f [_ Hin]].
      exact (fragment_chunks_no_error f c Hin).
    + rewrite (start_body_tools _ _ _ _ Hi ltac:(rewrite Ht; discriminate)).
      destruct (stream model _) as [s|e]; simpl; [|intros []].
      intros Hin. apply in_flat_map in Hin as [f [_ Hin]].
      destruct (content_chunks_content f c Hin) as [s' ->]. reflexivity.
  - rewrite (start_body_invoke_error _ _ _ _ Hi). intros [].
Qed.

(** ** Stream controller traces *)

Lemma stream_bytes_frames (frames : list Frame) :
  stream_bytes (map Enqueue frames ++ [CloseStream]) = concat_str (map encode_frame frames).
Proof. induction frames as [|f fs IH]; simpl; [reflexivity | now rewrite IH]. Qed.

Lemma frames_of_enqueued (frames : list Frame) :
  frames_of (map Enqueue frames ++ [CloseStream]) = frames.
Proof.
  induction frames as [|f fs IH]; [reflexivity|].
  simpl. f_equal. exact IH.
Qed.

Lemma start_trace (body : Out unit) :
  OllamaModel.start body =
    map Enqueue (map FChunk (fst body) ++
                 match snd body with
                 | Ok _ => [FDone]
                 | Throw e => [FChunk (CError (js_String e))]
                 end) ++ [CloseStream].
Proof.
  destruct body as [out [u|e]]; unfold OllamaModel.start; simpl;
    rewrite map_app, map_map, <- app_assoc; reflexivity.
Qed.

Lemma count_chunks (p : Frame -> bool) (out : list StreamChunk) :
  (forall c, In c out -> p (FChunk c) = false) ->
  length (filter p (map FChunk out)) = 0.
Proof.
  induction out as [|c out IH]; intros H; [reflexivity|].
  simpl. rewrite (H c (or_introl eq_refl)). apply IH. intros c' Hc'. apply H. now right.
Qed.

(** ** Claims on [OllamaModel.createStreamingResponse] and [streamChat] *)

(** C1: the stream is a sequence of [data: <JSON>\n\n] frames, each a chunk
    of type content, thinking or error or the [[DONE]] sentinel, followed by
    closure.  It ends with [[DONE]] exactly when the [try] body did not
    throw; then [[DONE]] occurs once and no error chunk occurs.  When the
    body throws, the last frame is the single error chunk, closure follows
    it, and [[DONE]] is absent. *)
Theorem createStreamingResponse_framing model toolMap systemPrompt messages :
  let body := OllamaModel.start_body model toolMap
                (OllamaModel.convertToLangChainMessages systemPrompt messages) in
  let t := OllamaModel.createStreamingResponse model toolMap systemPrompt messages in
  let frames := frames_of t in
  t = map Enqueue frames ++ [CloseStream] /\
  stream_bytes t = concat_str (map encode_frame frames) /\
  (forall f, In f frames ->
     (f = FDone /\ encode_frame f = "data: [DONE]" ^ nl ^ nl) \/
     exists c, f = FChunk c /\ encode_frame f = "data: " ^ chunk_json c ^ nl ^ nl /\
       In (chunk_type c) ["content"; "thinking"; "error"]) /\
  ((exists pre, frames = pre ++ [FDone]) <-> snd body = Ok tt) /\
  (snd body = Ok tt ->
     length (filter is_done_frame frames) = 1 /\
     length (filter is_error_frame frames) = 0) /\
  (forall e, snd body = Throw e ->
     (exists pre, frames = pre ++ [FChunk (CError (js_String e))]) /\
     length (filter is_error_frame frames) = 1 /\
     ~ In FDone frames).
Proof.
  intros body t frames.
  assert (Ht : t = map Enqueue (map FChunk (fst body) ++
                 match snd body with
                 | Ok _ => [FDone]
                 | Throw e => [FChunk (CError (js_String e))]
                 end) ++ [CloseStream]) by apply start_trace.
  assert (Hf : frames = map FChunk (fst body) ++
                 match snd body with
                 | Ok _ => [FDone]
                 | Throw e => [FChunk (CError (js_String e))]
                 end) by (unfold frames; rewrite Ht; apply frames_of_enqueued).
  assert (Hnoerr : forall c, In c (fst body) -> is_error_chunk c = false)
    by apply body_no_error_chunk.
  assert (Hnodone : forall c, In c (fst body) -> is_done_frame (FChunk c) = false)
    by reflexivity.
  assert (Hnoerr' : forall c, In c (fst body) -> is_error_frame (FChunk c) = false)
    by exact Hnoerr.
  split; [rewrite Hf; exact Ht|].
  split; [rewrite Ht, <- Hf; apply stream_bytes_frames|].
  split.
  { intros f _. destruct f as [c|]; [right; exists c; split; [reflexivity|]|left; now split].
    split; [reflexivity|]. destruct c; simpl; auto. }
  split.
  { split.
    - intros [pre Hpre]. rewrite Hf in Hpre.
      destruct (snd body) as [u|e]; [now destruct u|].
      apply app_inj_tail in Hpre as [_ Habs]. discriminate.
    - intros Hok. rewrite Hf, Hok. now exists (map FChunk (fst body)). }
  split.
  { intros Hok. rewrite Hf, Hok, !filter_app, !length_app.
    rewrite (count_chunks _ _ Hnodone), (count_chunks _ _ Hnoerr'). simpl. lia. }
  { intros e He. rewrite Hf, He. split; [now eexists|]. split.
    - rewrite filter_app, length_app, (count_chunks _ _ Hnoerr'). reflexivity.
    - intros Hin. apply in_app_or in Hin as [Hin | [Hin | []]]; [|discriminate].
      apply in_map_iff in Hin as [c [Hc _]]. discriminate. }
Qed.

(** ** Order of chunks: every element satisfying [P] is directly preceded
    by an element satisfying [Q]. *)

Section Follows.
Context {X : Type} (P Q : X -> Prop).

Lemma follows_nil : follows P Q [].
Proof. intros pre x post H. destruct pre; discriminate. Qed.

Lemma follows_app (a b : list X) :
  follows P Q a -> follows P Q b -> (forall x b', b = x :: b' -> ~ P x) -> follows P Q (a ++ b).
Proof.
  intros Ha Hb Hhd pre x post Heq Hx.
  apply app_eq_app in Heq as [l [[Hl Hxl] | [-> Hl]]].
  - destruct l as [|z l'].
    + simpl in Hxl. exfalso. exact (Hhd x post (eq_sym Hxl) Hx).
    + simpl in Hxl. injection Hxl as <- _. exact (Ha pre x l' Hl Hx).
  - destruct (Hb l x post Hl Hx) as [pre' [y [-> Hy]]].
    exists (a ++ pre'), y. split; [now rewrite app_assoc | exact Hy].
Qed.

Lemma flat_map_head {A} (f : A -> list X) (l : list A) x r :
  flat_map f l = x :: r -> exists a r', In a l /\ f a = x :: r'.
Proof.
  induction l as [|a l IH]; simpl; [discriminate|].
  destruct (f a) as [|y r'] eqn:Hfa; simpl.
  - intros H. destruct (IH H) as [a' [r'' [Hin Ha']]]. exists a', r''. auto.
  - intros H. inversion H; subst. exists a, r'. auto.
Qed.

Lemma follows_flat_map {A} (f : A -> list X) (l : list A) :
  (forall a, follows P Q (f a)) -> (forall a x r, f a = x :: r -> ~ P x) ->
  follows P Q (flat_map f l).
Proof.
  intros Hf Hhd. induction l as [|a l IH]; [apply follows_nil|].
  simpl. apply follows_app; [apply Hf | exact IH|].
  intros x b' Hb. destruct (flat_map_head f l x b' Hb) as [a' [r' [_ Ha']]].
  exact (Hhd a' x r' Ha').
Qed.

End Follows.

Lemma follows_map {X Y} (g : X -> Y) (P Q : Y -> Prop) (l : list X) :
  follows (fun x => P (g x)) (fun x => Q (g x)) l -> follows P Q (map g l).
Proof.
  intros H pre y post Heq Hy.
  apply map_eq_app in Heq as [l1 [l2 [-> [<- Hl2]]]].
  apply map_eq_cons in Hl2 as [a [tl [-> [Ha _]]]].
  subst y. destruct (H l1 a tl eq_refl Hy) as [pre' [z [-> Hz]]].
  exists (map g pre'), (g z). split; [now rewrite map_app | exact Hz].
Qed.

Lemma fragment_chunks_follows f :
  follows is_thinking is_content (OllamaModel.fragment_chunks f).
Proof.
  intros pre x post Heq [t ->].
  destruct (fragment_chunks_shape f) as [Hf | [c [_ [Hf | [t' Hf]]]]];
    rewrite Hf in Heq; destruct pre as [|a [|b pre]]; simpl in Heq;
    inversion Heq; subst; try (destruct pre; discriminate).
  exists [], (CContent c). split; [reflexivity | now exists c].
Qed.

Lemma fragment_chunks_head f x r :
  OllamaModel.fragment_chunks f = x :: r -> ~ is_thinking x.
Proof.
  intros Hf [t ->].
  destruct (fragment_chunks_shape f) as [H | [c [_ [H | [t' H]]]]];
    rewrite H in Hf; discriminate.
Qed.

Lemma follows_none {X} (P Q : X -> Prop) (l : list X) :
  (forall x, In x l -> ~ P x) -> follows P Q l.
Proof.
  intros H pre x post -> Hx. exfalso. apply (H x); [|exact Hx].
  apply in_or_app. right. now left.
Qed.

Lemma follows_impl {X} (P Q P' Q' : X -> Prop) (l : list X) :
  (forall x, P' x -> P x) -> (forall x, Q x -> Q' x) ->
  follows P Q l -> follows P' Q' l.
Proof.
  intros HP HQ H pre x post Heq Hx.
  destruct (H pre x post Heq (HP x Hx)) as [pre' [y [Hpre Hy]]].
  exists pre', y. auto.
Qed.

Lemma content_chunks_no_thinking f c : In c (content_chunks f) -> ~ is_thinking c.
Proof.
  intros Hin [t ->]. destruct (content_chunks_content f _ Hin) as [s Hs]. discriminate.
Qed.

Lemma body_follows model toolMap lm :
  follows is_thinking is_content (fst (OllamaModel.start_body model toolMap lm)).
Proof.
  destruct (invoke model lm) as [resp|e] eqn:Hi.
  - destruct (tool_calls resp) as [|tc tcs] eqn:Ht.
    + rewrite (start_body_no_tools _ _ _ _ Hi Ht).
      destruct (stream model lm) as [s|e]; simpl; [|apply follows_nil].
      apply follows_flat_map; [apply fragment_chunks_follows | apply fragment_chunks_head].
    + rewrite (start_body_tools _ _ _ _ Hi ltac:(rewrite Ht; discriminate)).
      destruct (stream model _) as [s|e]; simpl; [|apply follows_nil].
      apply follows_none. intros c Hin. apply in_flat_map in Hin as [f [_ Hin]].
      exact (content_chunks_no_thinking f c Hin).
  - rewrite (start_body_invoke_error _ _ _ _ Hi). apply follows_nil.
Qed.

Lemma streamChat_chunks model systemPrompt messages :
  OllamaModel.streamChat model systemPrompt messages =
    match stream model (OllamaModel.convertToLangChainMessages systemPrompt messages) with
    | Ok s => flat_map OllamaModel.fragment_chunks (frags s) ++
              match stream_end s with None => [] | Some e => [CError (error_text e)] end
    | Throw e => [CError (error_text e)]
    end.
Proof.
  unfold OllamaModel.streamChat, Out.await.
  destruct (stream model _) as [s|e]; [|reflexivity].
  rewrite bind_ok. cbn [fst snd].
  rewrite (for_await_pure _ _ s forward_full_pure). cbn [fst snd app].
  unfold end_result. destruct (stream_end s); simpl; [reflexivity | now rewrite app_nil_r].
Qed.

(** C10: a fragment whose content is not a non-empty string yields no
    chunk; a fragment yields nothing, its content, or its content followed
    by one thinking chunk; [streamChat] and the no-tool pass emit the
    fragments' chunks in order; so in the chunks of [streamChat] and the
    frames of [createStreamingResponse], every thinking chunk comes right
    after a content chunk. *)
Theorem thinking_follows_content model toolMap systemPrompt messages :
  let lm := OllamaModel.convertToLangChainMessages systemPrompt messages in
  (forall f, frag_content f = None \/ frag_content f = Some EmptyString ->
     OllamaModel.fragment_chunks f = []) /\
  (forall f, OllamaModel.fragment_chunks f = [] \/
     exists c, frag_content f = Some c /\
       (OllamaModel.fragment_chunks f = [CContent c] \/
        exists t, OllamaModel.fragment_chunks f = [CContent c; CThinking t])) /\
  (forall s, stream model lm = Ok s ->
     OllamaModel.streamChat model systemPrompt messages =
       flat_map OllamaModel.fragment_chunks (frags s) ++
       match stream_end s with None => [] | Some e => [CError (error_text e)] end) /\
  (forall resp s, invoke model lm = Ok resp -> tool_calls resp = [] ->
     stream model lm = Ok s ->
     fst (OllamaModel.start_body model toolMap lm) =
       flat_map OllamaModel.fragment_chunks (frags s)) /\
  (forall pre t post,
     OllamaModel.streamChat model systemPrompt messages = pre ++ CThinking t :: post ->
     exists pre' c, pre = pre' ++ [CContent c]) /\
  (forall pre t post,
     frames_of (OllamaModel.createStreamingResponse model toolMap systemPrompt messages) =
       pre ++ FChunk (CThinking t) :: post ->
     exists pre' c, pre = pre' ++ [FChunk (CContent c)]).
Proof.
  intros lm. split; [|split; [|split; [|split; [|split]]]].
  - intros f [H | H]; unfold OllamaModel.fragment_chunks; rewrite H; reflexivity.
  - apply fragment_chunks_shape.
  - intros s Hs. rewrite streamChat_chunks. fold lm. now rewrite Hs.
  - intros resp s Hi Ht Hs. rewrite (start_body_no_tools _ _ _ _ Hi Ht), Hs. reflexivity.
  - intros pre t post Heq.
    assert (Hf : follows is_thinking is_content
                   (OllamaModel.streamChat model systemPrompt messages)).
    { rewrite streamChat_chunks.
      assert (Htail : forall e, follows is_thinking is_content [CError e]).
      { intros e. apply follows_none. intros x [<- | []] [t' Ht']. discriminate. }
      destruct (stream model _) as [s|e]; [|apply Htail].
      apply follows_app.
      - apply follows_flat_map; [apply fragment_chunks_follows | apply fragment_chunks_head].
      - destruct (stream_end s); [apply Htail | apply follows_nil].
      - intros x b' Hb [t' ->]. destruct (stream_end s); discriminate. }
    destruct (Hf pre (CThinking t) post Heq (ex_intro _ t eq_refl))
      as [pre' [y [-> [c ->]]]].
    now exists pre', c.
  - intros pre t post Heq.
    unfold OllamaModel.createStreamingResponse in Heq. rewrite start_trace in Heq.
    rewrite frames_of_enqueued in Heq. fold lm in Heq.
    set (P := fun f => exists t, f = FChunk (CThinking t)) in *.
    set (Q := fun f => exists c, f = FChunk (CContent c)) in *.
    assert (Hf : follows P Q
      (map FChunk (fst (OllamaModel.start_body model toolMap lm)) ++
       match snd (OllamaModel.start_body model toolMap lm) with
       | Ok _ => [FDone]
       | Throw e => [FChunk (CError (js_String e))]
       end)).
    { apply follows_app.
      - apply follows_map.
        apply (follows_impl is_thinking is_content); [| |apply body_follows].
        + intros x [t' Ht']. injection Ht' as ->. now exists t'.
        + intros x [c ->]. now exists c.
      - destruct (snd _); apply follows_none; intros x [<- | []] [t' Ht']; discriminate.
      - intros x b' Hb [t' ->]. destruct (snd _); inversion Hb. }
    destruct (Hf pre _ post Heq (ex_intro _ t eq_refl)) as [pre' [y [-> [c ->]]]].
    now exists pre', c.
Qed.

(** C7: when the first response requests tools, the second pass emits only
    content chunks (the chunks of [content_chunks], whatever reasoning
    fields the fragments carry), so no thinking frame is ever enqueued. *)
Theorem tool_pass_content_only model toolMap systemPrompt messages resp :
  let lm := OllamaModel.convertToLangChainMessages systemPrompt messages in
  invoke model lm = Ok resp -> tool_calls resp <> [] ->
  (forall s, stream model (lm ++ AIMessage resp ::
                           OllamaModel.executeToolCalls toolMap (tool_calls resp)) = Ok s ->
     fst (OllamaModel.start_body model toolMap lm) = flat_map content_chunks (frags s)) /\
  (forall c, In c (fst (OllamaModel.start_body model toolMap lm)) ->
     exists s, c = CContent s) /\
  (forall t, ~ In (Enqueue (FChunk (CThinking t)))
                  (OllamaModel.createStreamingResponse model toolMap systemPrompt messages)).
Proof.
  intros lm Hi Ht.
  pose proof (start_body_tools model toolMap lm resp Hi Ht) as Hb.
  assert (Hc : forall c, In c (fst (OllamaModel.start_body model toolMap lm)) ->
                 exists s, c = CContent s).
  { rewrite Hb. destruct (stream model _) as [s|e]; simpl; [|intros c []].
    intros c Hin. apply in_flat_map in Hin as [f [_ Hin]].
    exact (content_chunks_content f c Hin). }
  split; [|split; [exact Hc|]].
  - intros s Hs. rewrite Hb, Hs. reflexivity.
  - intros t Hin. unfold OllamaModel.createStreamingResponse in Hin.
    rewrite start_trace in Hin. fold lm in Hin.
    apply in_app_or in Hin as [Hin | [Hin | []]]; [|discriminate].
    apply in_map_iff in Hin as [f [Hf Hin]]. injection Hf as ->.
    apply in_app_or in Hin as [Hin | Hin].
    + apply in_map_iff in Hin as [c [Hcf Hin]]. injection Hcf as ->.
      destruct (Hc _ Hin) as [s Hs]. discriminate.
    + destruct (snd _); destruct Hin as [Hin | []]; discriminate.
Qed.

(** ** Tool execution *)

Lemma executeToolCalls_app toolMap l1 l2 :
  OllamaModel.executeToolCalls toolMap (l1 ++ l2) =
  OllamaModel.executeToolCalls toolMap l1 ++ OllamaModel.executeToolCalls toolMap l2.
Proof. unfold OllamaModel.executeToolCalls. apply flat_map_app. Qed.

Lemma executeToolCall_resolved toolMap tc :
  map_get toolMap (tc_name tc) <> None ->
  exists result, OllamaModel.executeToolCall toolMap tc = [ToolMessage result (tc_id tc)].
Proof.
  unfold OllamaModel.executeToolCall. destruct (map_get toolMap (tc_name tc)) as [tool|];
    [intros _ | congruence].
  destruct (tool (tc_args tc)); eexists; reflexivity.
Qed.

Lemma executeToolCalls_resolved toolMap tcs :
  (forall tc, In tc tcs -> map_get toolMap (tc_name tc) <> None) ->
  length (OllamaModel.executeToolCalls toolMap tcs) = length tcs /\
  map tool_message_id (OllamaModel.executeToolCalls toolMap tcs) =
    map (fun tc => Some (tc_id tc)) tcs.
Proof.
  induction tcs as [|tc tcs IH]; intros H; [split; reflexivity|].
  change (OllamaModel.executeToolCalls toolMap (tc :: tcs)) with
    (OllamaModel.executeToolCall toolMap tc ++ OllamaModel.executeToolCalls toolMap tcs).
  destruct (executeToolCall_resolved toolMap tc (H tc (or_introl eq_refl))) as [r ->].
  destruct IH as [IHl IHm]; [intros tc' Hin; apply H; now right|].
  simpl. rewrite IHl, IHm. split; reflexivity.
Qed.

(** C6: when the first response requests tool calls, the model is streamed
    a second time over the history extended by the AI message and the tool
    messages; if every requested name resolves there is one tool message per
    call, in the order of the calls; a call with an unknown name contributes
    nothing; a tool that throws yields a message [Error: ...]; and a second
    stream that ends normally closes the turn with [[DONE]]. *)
Theorem tool_round_trip model toolMap systemPrompt messages resp :
  let lm := OllamaModel.convertToLangChainMessages systemPrompt messages in
  let toolMessages := OllamaModel.executeToolCalls toolMap (tool_calls resp) in
  invoke model lm = Ok resp -> tool_calls resp <> [] ->
  OllamaModel.start_body model toolMap lm =
    match stream model (lm ++ AIMessage resp :: toolMessages) with
    | Ok s => (flat_map content_chunks (frags s), end_result s)
    | Throw e => ([], Throw e)
    end /\
  ((forall tc, In tc (tool_calls resp) -> map_get toolMap (tc_name tc) <> None) ->
     length toolMessages = length (tool_calls resp) /\
     map tool_message_id toolMessages = map (fun tc => Some (tc_id tc)) (tool_calls resp)) /\
  (forall pre tc post, tool_calls resp = pre ++ tc :: post ->
     map_get toolMap (tc_name tc) = None ->
     toolMessages = OllamaModel.executeToolCalls toolMap pre ++
                    OllamaModel.executeToolCalls toolMap post) /\
  (forall tc tool e, In tc (tool_calls resp) ->
     map_get toolMap (tc_name tc) = Some tool -> tool (tc_args tc) = Throw e ->
     In (ToolMessage ("Error: " ^ error_text e) (tc_id tc)) toolMessages) /\
  (forall s, stream model (lm ++ AIMessage resp :: toolMessages) = Ok s ->
     stream_end s = None ->
     exists pre, OllamaModel.createStreamingResponse model toolMap systemPrompt messages =
       pre ++ [Enqueue FDone; CloseStream]).
Proof.
  intros lm toolMessages Hi Ht.
  pose proof (start_body_tools model toolMap lm resp Hi Ht) as Hb.
  split; [exact Hb|]. split; [|split; [|split]].
  - apply executeToolCalls_resolved.
  - intros pre tc post Hcalls Hnone. unfold toolMessages. rewrite Hcalls.
    rewrite executeToolCalls_app.
    change (OllamaModel.executeToolCalls toolMap (tc :: post)) with
      (OllamaModel.executeToolCall toolMap tc ++ OllamaModel.executeToolCalls toolMap post).
    unfold OllamaModel.executeToolCall at 1. rewrite Hnone. reflexivity.
  - intros tc tool e Hin Hget Hthrow. unfold toolMessages, OllamaModel.executeToolCalls.
    apply in_flat_map. exists tc. split; [exact Hin|].
    unfold OllamaModel.executeToolCall. rewrite Hget, Hthrow. now left.
  - intros s Hs Hend. unfold OllamaModel.createStreamingResponse. fold lm.
    rewrite Hb. unfold toolMessages in Hs. rewrite Hs.
    unfold OllamaModel.start, end_result. rewrite Hend.
    eexists. reflexivity.
Qed.

(** ** Document ids of the vector store *)

Lemma has_dash_uint (u : uint) : has_dash (string_of_uint u) = false.
Proof. induction u; simpl; auto. Qed.

Lemma string_of_uint_inj (u v : uint) : string_of_uint u = string_of_uint v -> u = v.
Proof.
  revert v; induction u; intros v H; destruct v; simpl in H;
    try discriminate; try reflexivity;
    injection H as H; f_equal; apply IHu; exact H.
Qed.

Lemma nat_to_string_inj (m n : nat) : nat_to_string m = nat_to_string n -> m = n.
Proof.
  intros H. apply string_of_uint_inj in H. now apply DecimalNat.Unsigned.to_uint_inj.
Qed.

(** The part after the last dash determines a dash-separated string. *)
Lemma dash_suffix (a b c d : string) :
  has_dash b = false -> has_dash d = false ->
  a ^ String "-" b = c ^ String "-" d -> b = d.
Proof.
  intros Hb Hd. revert c. induction a as [|x a IH]; intros c H; destruct c as [|y c];
    simpl in H.
  - now injection H.
  - injection H as <- Hbc. subst b. simpl in Hb.
    exfalso. clear -Hb. induction c as [|z c IHc]; simpl in Hb.
    + discriminate.
    + apply orb_false_iff in Hb as [_ Hb]. exact (IHc Hb).
  - injection H as -> Hbc. subst d. simpl in Hd.
    exfalso. clear -Hd. induction a as [|z a IHa]; simpl in Hd.
    + discriminate.
    + apply orb_false_iff in Hd as [_ Hd]. exact (IHa Hd).
  - injection H as _ H. exact (IH c H).
Qed.

Lemma doc_id_inj stamps (i j : nat) : doc_id stamps i = doc_id stamps j -> i = j.
Proof.
  unfold doc_id. intros H.
  assert (E : forall z n, "doc-" ^ z ^ "-" ^ n = ("doc-" ^ z) ^ String "-" n)
    by (intros; now rewrite append_assoc_str).
  rewrite !E in H.
  apply dash_suffix in H; [| apply has_dash_uint | apply has_dash_uint].
  now apply nat_to_string_inj.
Qed.

Lemma map_index_seq {A B} (g : nat -> B) (xs : list A) (i : nat) :
  map_index (fun _ index => g index) xs i = map g (seq i (length xs)).
Proof.
  revert i; induction xs as [|x xs IH]; intros i; simpl; [reflexivity | now rewrite IH].
Qed.

Lemma NoDup_map_inj {A B} (g : A -> B) (l : list A) :
  (forall x y, g x = g y -> x = y) -> NoDup l -> NoDup (map g l).
Proof.
  intros Hg Hl. induction Hl as [|x l Hx Hl IH]; simpl; constructor; [|exact IH].
  intros Hin. apply in_map_iff in Hin as [y [Hy Hin]].
  apply Hg in Hy. subst. contradiction.
Qed.

(** C9: a successful [addDocumentsToVectorStore] returns one id per text,
    the [i]-th being [doc-<Date.now() at that step>-<i>], and the ids of
    one call are pairwise distinct, whatever the clock readings. *)
Theorem addDocuments_ids addDocuments stamps texts ids :
  addDocumentsToVectorStore addDocuments stamps texts = Ok ids ->
  length ids = length texts /\
  (forall i, i < length texts ->
     nth_error ids i = Some ("doc-" ^ Z_to_string (stamps i) ^ "-" ^ nat_to_string i)) /\
  NoDup ids.
Proof.
  unfold addDocumentsToVectorStore.
  destruct (addDocuments _ _); intros H; [|discriminate].
  injection H as <-.
  rewrite (map_index_seq (doc_id stamps)). split; [|split].
  - now rewrite length_map, length_seq.
  - intros i Hi. rewrite nth_error_map, nth_error_seq.
    destruct (Nat.ltb_spec i (length texts)); [reflexivity | lia].
  - apply NoDup_map_inj; [apply doc_id_inj | apply seq_NoDup].
Qed.

(** ** Witnesses *)

Lemma shouldUseRAG_iff_witness :
  RAGModel.enableRAG (RAGModel.mkRAGOptions true 5 4) = true /\
  RAGModel.shouldUseRAG (RAGModel.mkRAGOptions true 5 4) "hello" = true.
Proof.
  split; [reflexivity|].
  apply (shouldUseRAG_iff (RAGModel.mkRAGOptions true 5 4) "hello").
  split; [reflexivity | right; vm_compute; discriminate].
Defined.

Lemma createStreamingResponse_framing_witness :
  snd (OllamaModel.start_body failing_model sample_toolMap
         (OllamaModel.convertToLangChainMessages "sys" sample_messages)) =
    Throw (JError "Error" "socket hang up") /\
  length (filter is_error_frame
    (frames_of (OllamaModel.createStreamingResponse failing_model sample_toolMap
                  "sys" sample_messages))) = 1.
Proof.
  pose proof (createStreamingResponse_framing failing_model sample_toolMap "sys"
                sample_messages) as T.
  cbv zeta in T. destruct T as [_ [_ [_ [_ [_ Herr]]]]].
  split; [reflexivity|].
  exact (proj1 (proj2 (Herr (JError "Error" "socket hang up") eq_refl))).
Defined.

Lemma rag_retrieval_failure_swallowed_witness :
  failing_db "what time is it?" (RAGModel.k sample_options) = Throw JUndefined /\
  RAGModel.streamChat sample_options failing_db plain_model "sys" sample_messages =
    Ok (OllamaModel.streamChat plain_model "sys" sample_messages).
Proof.
  split; [reflexivity|].
  destruct (rag_retrieval_failure_swallowed sample_options failing_db plain_model
              sample_toolMap "sys" sample_messages) as [_ H].
  apply H. intros lastMessage _. now exists JUndefined.
Defined.

Lemma tool_round_trip_witness :
  invoke tool_model (OllamaModel.convertToLangChainMessages "sys" sample_messages) =
    Ok (mkAIResponse EmptyString sample_calls) /\
  In (ToolMessage ("Error: " ^ "clock") "call_3")
     (OllamaModel.executeToolCalls sample_toolMap sample_calls).
Proof.
  split; [reflexivity|].
  pose proof (tool_round_trip tool_model sample_toolMap "sys" sample_messages
                (mkAIResponse EmptyString sample_calls)) as T.
  cbv zeta in T. destruct (T eq_refl ltac:(discriminate)) as [_ [_ [_ [Herr _]]]].
  exact (Herr (mkToolCall "get_current_timestamp" "{}" "call_3")
              (fun _ => Throw (JError "Error" "clock")) (JError "Error" "clock")
              ltac:(simpl; auto) eq_refl eq_refl).
Defined.

Lemma tool_pass_content_only_witness :
  invoke tool_model (OllamaModel.convertToLangChainMessages "sys" sample_messages) =
    Ok (mkAIResponse EmptyString sample_calls) /\
  ~ In (Enqueue (FChunk (CThinking "checking the clock")))
       (OllamaModel.createStreamingResponse tool_model sample_toolMap "sys" sample_messages).
Proof.
  split; [reflexivity|].
  pose proof (tool_pass_content_only tool_model sample_toolMap "sys" sample_messages
                (mkAIResponse EmptyString sample_calls)) as T.
  cbv zeta in T. destruct (T eq_refl ltac:(discriminate)) as [_ [_ H]].
  apply H.
Defined.

Lemma rag_delegated_history_witness :
  RAGModel.shouldUseRAG sample_options "what time is it?" = true /\
  RAGModel.streamChat sample_options sample_db plain_model "sys" sample_messages =
    Ok (OllamaModel.streamChat plain_model "sys"
          [mkChatMessage assistant "hi";
           mkChatMessage user (buildRAGPrompt "what time is it?"
                                 [mkRetrievedDoc "Noon is 12:00." []])]).
Proof.
  split; [reflexivity|].
  destruct (rag_delegated_history sample_options sample_db plain_model sample_toolMap
              "sys" sample_messages) as [H _].
  exact (proj1 (proj2 (H [mkChatMessage assistant "hi"]
                         (mkChatMessage user "what time is it?")
                         (buildRAGPrompt "what time is it?" [mkRetrievedDoc "Noon is 12:00." []])
                         eq_refl eq_refl eq_refl eq_refl))).
Defined.

Lemma addDocuments_ids_witness :
  addDocumentsToVectorStore (fun _ _ => Ok tt) (fun i => (1760000000000 + Z.of_nat i)%Z)
    ["a"; "b"] = Ok ["doc-1760000000000-0"; "doc-1760000000001-1"] /\
  NoDup ["doc-1760000000000-0"; "doc-1760000000001-1"].
Proof.
  split; [vm_compute; reflexivity|].
  exact (proj2 (proj2 (addDocuments_ids (fun _ _ => Ok tt)
                        (fun i => (1760000000000 + Z.of_nat i)%Z) ["a"; "b"] _
                        ltac:(vm_compute; reflexivity)))).
Defined.

Lemma thinking_follows_content_witness :
  OllamaModel.streamChat plain_model "sys" sample_messages =
    [CContent "It is "] ++ CThinking "checking the clock" :: [CContent "noon."] /\
  exists pre' c, [CContent "It is "] = pre' ++ [CContent c].
Proof.
  split; [reflexivity|].
  pose proof (thinking_follows_content plain_model sample_toolMap "sys" sample_messages) as T.
  cbv zeta in T. destruct T as [_ [_ [_ [_ [H _]]]]].
  exact (H [CContent "It is "] "checking the clock" [CContent "noon."] eq_refl).
Defined.


(** * Further properties of the client, the retrieval chain, the options, the embeddings and the system prompt *)


Lemma cons_head_nonempty a xs : cons_head a xs <> [].
Proof. destruct xs; discriminate. Qed.

Lemma split_blank_ind (P : string -> Prop) :
  P EmptyString ->
  (forall a, P (String a EmptyString)) ->
  (forall a b s', is_nl a && is_nl b = true -> P s' -> P (String a (String b s'))) ->
  (forall a b s', is_nl a && is_nl b = false -> P (String b s') -> P (String a (String b s'))) ->
  forall s, P s.
Proof.
  intros H0 H1 H2 H3.
  assert (G : forall n s, String.length s <= n -> P s).
  { induction n as [|n IH]; intros s Hs.
    - destruct s; [exact H0 | simpl in Hs; lia].
    - destruct s as [|a [|b s']]; [exact H0 | apply H1 |].
      destruct (is_nl a && is_nl b) eqn:E.
      + apply H2; [exact E | apply IH; simpl in *; lia].
      + apply H3; [exact E | apply IH; simpl in *; lia]. }
  intros s; apply (G (String.length s)); lia.
Qed.

Lemma split_blank_sep a b s' :
  is_nl a && is_nl b = true -> split_blank (String a (String b s')) = EmptyString :: split_blank s'.
Proof.
  intros E.
  change (split_blank (String a (String b s'))) with
    (if is_nl a && is_nl b then EmptyString :: split_blank s'
     else cons_head a (split_blank (String b s'))).
  now rewrite E.
Qed.

Lemma split_blank_nosep a b s' :
  is_nl a && is_nl b = false ->
  split_blank (String a (String b s')) = cons_head a (split_blank (String b s')).
Proof.
  intros E.
  change (split_blank (String a (String b s'))) with
    (if is_nl a && is_nl b then EmptyString :: split_blank s'
     else cons_head a (split_blank (String b s'))).
  now rewrite E.
Qed.

Lemma split_blank_nonempty s : split_blank s <> [].
Proof.
  induction s as [| a | a b s' E IH | a b s' E IH] using split_blank_ind.
  - discriminate.
  - discriminate.
  - rewrite split_blank_sep by exact E. discriminate.
  - rewrite split_blank_nosep by exact E. apply cons_head_nonempty.
Qed.

Lemma split_blank_single s x : split_blank s = [x] -> x = s.
Proof.
  revert x.
  induction s as [| a | a b s' E IH | a b s' E IH] using split_blank_ind; intros x H.
  - simpl in H. congruence.
  - simpl in H. congruence.
  - rewrite split_blank_sep in H by exact E. injection H as _ H.
    exfalso. exact (split_blank_nonempty s' H).
  - rewrite split_blank_nosep in H by exact E.
    destruct (split_blank (String b s')) as [|y ys] eqn:Hy; [exfalso; exact (split_blank_nonempty _ Hy)|].
    simpl in H. injection H as <- ->. now rewrite (IH y eq_refl).
Qed.

Lemma removelast_cons_ne {A} (y : A) xs : xs <> [] -> removelast (y :: xs) = y :: removelast xs.
Proof. destruct xs; [congruence | reflexivity]. Qed.

Lemma last_cons_ne {A} (y d : A) xs : xs <> [] -> last (y :: xs) d = last xs d.
Proof. destruct xs; [congruence | reflexivity]. Qed.

(** Splitting a concatenation: the complete pieces of the first part, then
    the split of its incomplete last piece followed by the second part. *)
Lemma split_blank_app s t :
  split_blank (s ^ t) =
  removelast (split_blank s) ++ split_blank (last (split_blank s) EmptyString ^ t).
Proof.
  induction s as [| a | a b s' E IH | a b s' E IH] using split_blank_ind.
  - reflexivity.
  - reflexivity.
  - change (String a (String b s') ^ t) with (String a (String b (s' ^ t))).
    rewrite !split_blank_sep by exact E. rewrite IH.
    rewrite removelast_cons_ne, last_cons_ne by apply split_blank_nonempty.
    reflexivity.
  - change (String a (String b s') ^ t) with (String a (String b (s' ^ t))).
    rewrite (split_blank_nosep a b (s' ^ t)), (split_blank_nosep a b s') by exact E.
    change (String b (s' ^ t)) with (String b s' ^ t). rewrite IH.
    pose proof (split_blank_single (String b s')) as Hs.
    destruct (split_blank (String b s')) as [|x [|x2 xs]] eqn:HX.
    + exfalso. exact (split_blank_nonempty _ HX).
    + rewrite (Hs x eq_refl). cbn [cons_head removelast last app String.append].
      rewrite split_blank_nosep by exact E. reflexivity.
    + reflexivity.
Qed.

Lemma split_blank_last_free s :
  split_blank (last (split_blank s) EmptyString) = [last (split_blank s) EmptyString].
Proof.
  pose proof (split_blank_app s EmptyString) as H.
  rewrite !append_empty_r in H.
  pose proof (app_removelast_last EmptyString (split_blank_nonempty s)) as H2.
  rewrite H2 in H at 1. apply app_inv_head in H. now symmetry.
Qed.

Lemma handle_lines_app parse l1 l2 msgs :
  handle_lines parse (l1 ++ l2) msgs =
  let (msgs', stop) := handle_lines parse l1 msgs in
  if stop then (msgs', true) else handle_lines parse l2 msgs'.
Proof.
  revert msgs. induction l1 as [|line l1 IH]; intros msgs; [reflexivity|].
  simpl. destruct (handle_line parse line msgs) as [m [|]]; [reflexivity | apply IH].
Qed.

Lemma last_cons_default {A} (x d : A) xs : last (x :: xs) d = last xs x.
Proof.
  revert x d. induction xs as [|y ys IH]; intros x d; [reflexivity|].
  change (last (x :: y :: ys) d) with (last (y :: ys) d). now rewrite !IH.
Qed.

Lemma js_last_buffer (lines : list string) :
  lines <> [] ->
  match js_or (js_last lines) (Some EmptyString) with Some b => b | None => EmptyString end
  = last lines EmptyString.
Proof.
  destruct lines as [|x xs]; [congruence|]. intros _.
  change (js_last (x :: xs)) with (Some (last xs x)).
  rewrite <- (last_cons_default x EmptyString xs). unfold js_or, truthy.
  destruct (last (x :: xs) EmptyString) as [|c r]; reflexivity.
Qed.

(** The reader handles exactly the complete pieces of all it has read. *)
Lemma read_loop_lines parse buffer reads msgs :
  split_blank buffer = [buffer] ->
  read_loop parse buffer reads msgs =
  handle_lines parse (removelast (split_blank (buffer ^ concat_str reads))) msgs.
Proof.
  revert buffer msgs. induction reads as [|v rs IH]; intros buffer msgs Hb.
  - simpl. rewrite append_empty_r, Hb. reflexivity.
  - cbn [read_loop concat_str fold_right].
    rewrite js_last_buffer by apply split_blank_nonempty.
    rewrite <- append_assoc_str, (split_blank_app (buffer ^ v)).
    rewrite removelast_app by apply split_blank_nonempty.
    rewrite handle_lines_app.
    destruct (handle_lines parse (removelast (split_blank (buffer ^ v))) msgs) as [m [|]];
      [reflexivity|].
    apply IH, split_blank_last_free.
Qed.

Lemma has_nl_app a b : has_nl (a ^ b) = has_nl a || has_nl b.
Proof. induction a as [|c a IH]; simpl; [reflexivity | now rewrite IH, orb_assoc]. Qed.

Lemma hex_digit_not_nl d : d < 16 -> is_nl (hex_digit d) = false.
Proof.
  intros H. unfold is_nl, hex_digit.
  destruct (Nat.ltb_spec d 10);
    rewrite nat_ascii_embedding by lia; apply Nat.eqb_neq; lia.
Qed.

Lemma json_escape_no_nl s : has_nl (json_escape s) = false.
Proof.
  induction s as [|c s IH]; [reflexivity|].
  cbn [json_escape]. rewrite has_nl_app, IH, orb_false_r.
  destruct (Nat.eqb_spec (nat_of_ascii c) 34); [reflexivity|].
  destruct (Nat.eqb_spec (nat_of_ascii c) 92); [reflexivity|].
  destruct (Nat.eqb_spec (nat_of_ascii c) 8); [reflexivity|].
  destruct (Nat.eqb_spec (nat_of_ascii c) 12); [reflexivity|].
  destruct (Nat.eqb_spec (nat_of_ascii c) 10); [reflexivity|].
  destruct (Nat.eqb_spec (nat_of_ascii c) 13); [reflexivity|].
  destruct (Nat.eqb_spec (nat_of_ascii c) 9); [reflexivity|].
  destruct (Nat.ltb_spec (nat_of_ascii c) 32).
  - cbn [has_nl String.append].
    rewrite !hex_digit_not_nl; [reflexivity| |].
    + apply Nat.mod_upper_bound; discriminate.
    + apply Nat.Div0.div_lt_upper_bound; lia.
  - cbn [has_nl]. unfold is_nl. destruct (Nat.eqb_spec (nat_of_ascii c) 10); [lia|reflexivity].
Qed.

Lemma frame_line_no_nl f : has_nl (frame_line f) = false.
Proof.
  destruct f as [c|]; [|reflexivity].
  unfold frame_line, chunk_json, json_string.
  repeat (rewrite has_nl_app || rewrite json_escape_no_nl).
  destruct c; cbn [has_nl]; repeat (rewrite has_nl_app || rewrite json_escape_no_nl);
    reflexivity.
Qed.

Lemma split_blank_line x r :
  has_nl x = false -> split_blank (x ^ nl ^ nl ^ r) = x :: split_blank r.
Proof.
  induction x as [|c x IH]; intros H.
  - apply split_blank_sep. reflexivity.
  - cbn [has_nl] in H. apply orb_false_iff in H as [Hc Hx].
    change (String c x ^ nl ^ nl ^ r) with (String c (x ^ nl ^ nl ^ r)).
    destruct (x ^ nl ^ nl ^ r) as [|b s'] eqn:E.
    + destruct x; discriminate.
    + rewrite split_blank_nosep by (rewrite Hc; reflexivity).
      rewrite IH by exact Hx. reflexivity.
Qed.

Lemma encode_frame_line f : encode_frame f = frame_line f ^ nl ^ nl.
Proof. destruct f; unfold encode_frame, frame_line; now rewrite ?append_assoc_str. Qed.

Lemma split_frames fs :
  split_blank (concat_str (map encode_frame fs)) = map frame_line fs ++ [EmptyString].
Proof.
  induction fs as [|f fs IH]; [reflexivity|].
  change (concat_str (map encode_frame (f :: fs)))
    with (encode_frame f ^ concat_str (map encode_frame fs)).
  rewrite encode_frame_line, !append_assoc_str.
  rewrite split_blank_line by apply frame_line_no_nl. now rewrite IH.
Qed.

Lemma prefix_app p q : String.prefix p (p ^ q) = true.
Proof.
  induction p as [|c p IH]; simpl; [now destruct q|].
  destruct (ascii_dec c c); [exact IH | congruence].
Qed.

Lemma frame_data c :
  substring 6 (String.length ("data: " ^ chunk_json c) - 6) ("data: " ^ chunk_json c) = chunk_json c.
Proof.
  rewrite length_append_str.
  change 6 with (String.length "data: ") at 1.
  rewrite substring_after_prefix.
  replace (String.length "data: " + String.length (chunk_json c) - 6)
    with (String.length (chunk_json c)) by (simpl; lia).
  apply substring_full.
Qed.

Lemma thinking_or (t : string) :
  match js_or (Some t) (Some EmptyString) with Some x => x | None => EmptyString end = t.
Proof. unfold js_or, truthy. destruct t; reflexivity. Qed.

Lemma handle_line_chunk parse c prev C T :
  parse (chunk_json c) = Some (parsed_of c) ->
  handle_line parse (frame_line (FChunk c)) (prev ++ [mkMessage assistant C (Some T)]) =
  (prev ++ [mkMessage assistant (C ^ content_text [c]) (Some (T ^ thinking_text [c]))], false).
Proof.
  intros Hp. unfold handle_line, frame_line.
  rewrite prefix_app, frame_data.
  replace (String.eqb (chunk_json c) "[DONE]") with false by (destruct c; reflexivity).
  rewrite Hp. unfold update_last. rewrite js_last_app, removelast_last.
  destruct c as [s|s|e]; cbn [parsed_of p_type p_content content_text thinking_text];
    simpl String.eqb; cbv iota;
    unfold append_content, append_thinking, js_concat_opt; cbn [msg_role msg_content msg_thinking];
    rewrite ?thinking_or, ?append_empty_r; reflexivity.
Qed.

Lemma content_text_cons c cs : content_text (c :: cs) = content_text [c] ^ content_text cs.
Proof. destruct c; simpl; now rewrite ?append_empty_r. Qed.

Lemma thinking_text_cons c cs : thinking_text (c :: cs) = thinking_text [c] ^ thinking_text cs.
Proof. destruct c; simpl; now rewrite ?append_empty_r. Qed.

Lemma handle_chunk_lines parse cs rest prev C T :
  (forall c, In c cs -> parse (chunk_json c) = Some (parsed_of c)) ->
  handle_lines parse (map frame_line (map FChunk cs) ++ rest)
    (prev ++ [mkMessage assistant C (Some T)]) =
  handle_lines parse rest
    (prev ++ [mkMessage assistant (C ^ content_text cs) (Some (T ^ thinking_text cs))]).
Proof.
  revert C T. induction cs as [|c cs IH]; intros C T Hp.
  - simpl. now rewrite !append_empty_r.
  - cbn [map]. rewrite <- app_comm_cons. cbn [handle_lines].
    rewrite handle_line_chunk by (apply Hp; left; reflexivity).
    rewrite IH by (intros c' Hc'; apply Hp; right; exact Hc').
    now rewrite (content_text_cons c cs), (thinking_text_cons c cs), !append_assoc_str.
Qed.

Lemma frame_chunks_map cs : frame_chunks (map FChunk cs) = cs.
Proof. induction cs as [|c cs IH]; simpl; [reflexivity | now rewrite IH]. Qed.

Lemma no_done_map cs : existsb is_done_frame (map FChunk cs) = false.
Proof. induction cs as [|c cs IH]; simpl; [reflexivity | exact IH]. Qed.

(** The client on the byte stream of any run of [start]. *)
Lemma receive_start parse body reads prev :
  let t := OllamaModel.start body in
  concat_str reads = stream_bytes t ->
  (forall c, In (FChunk c) (frames_of t) -> parse (chunk_json c) = Some (parsed_of c)) ->
  receive parse reads prev =
    (prev ++ [mkMessage assistant (content_text (frame_chunks (frames_of t)))
                                  (Some (thinking_text (frame_chunks (frames_of t))))],
     existsb is_done_frame (frames_of t)).
Proof.
  intros t Hr Hp. unfold receive.
  rewrite read_loop_lines by reflexivity. cbn [String.append]. rewrite Hr.
  unfold t in *. rewrite start_trace in *.
  rewrite stream_bytes_frames, split_frames. rewrite frames_of_enqueued in *.
  destruct body as [out [u|e]]; cbn [snd fst] in *.
  - rewrite map_app, removelast_last, handle_chunk_lines.
    + unfold frame_chunks. rewrite flat_map_app.
      fold (frame_chunks (map FChunk out)). rewrite frame_chunks_map, app_nil_r.
      rewrite existsb_app, no_done_map. reflexivity.
    + intros c Hc. apply Hp, in_or_app. left. now apply in_map.
  - rewrite removelast_last.
    replace (map FChunk out ++ [FChunk (CError (js_String e))])
      with (map FChunk (out ++ [CError (js_String e)])) in * by now rewrite map_app.
    rewrite <- (app_nil_r (map frame_line (map FChunk _))), handle_chunk_lines.
    + rewrite frame_chunks_map, no_done_map. reflexivity.
    + intros c Hc. apply Hp. now apply in_map.
Qed.

(** X1: The chat page's stream reader ends with the same messages however the received text is cut into reads: only the concatenation of the decoded reads matters. *)
Theorem read_loop_chunking parse reads1 reads2 msgs :
  concat_str reads1 = concat_str reads2 ->
  read_loop parse EmptyString reads1 msgs = read_loop parse EmptyString reads2 msgs.
Proof. intros H. rewrite !read_loop_lines by reflexivity. now rewrite H. Qed.

(** X2: When the page reads the SSE stream of createStreamingResponse (JSON.parse inverting the server's JSON.stringify on its chunks), it appends one assistant message whose content is the concatenation of the content chunks and whose thinking is the concatenation of the thinking chunks. The reader stops on [DONE] exactly when the stream has a [DONE] frame. *)
Theorem client_receives_stream parse model toolMap systemPrompt messages reads prev :
  let t := OllamaModel.createStreamingResponse model toolMap systemPrompt messages in
  concat_str reads = stream_bytes t ->
  (forall c, In (FChunk c) (frames_of t) -> parse (chunk_json c) = Some (parsed_of c)) ->
  receive parse reads prev =
    (prev ++ [mkMessage assistant (content_text (frame_chunks (frames_of t)))
                                  (Some (thinking_text (frame_chunks (frames_of t))))],
     existsb is_done_frame (frames_of t)).
Proof. apply receive_start. Qed.

(** X3: When the server's run fails, the page keeps the content and thinking streamed before the failure and silently drops the error frame: the error is never shown and no [DONE] arrives. *)
Theorem client_drops_server_error parse model toolMap systemPrompt messages reads prev e :
  let body := OllamaModel.start_body model toolMap
                (OllamaModel.convertToLangChainMessages systemPrompt messages) in
  snd body = Throw e ->
  concat_str reads = stream_bytes (OllamaModel.createStreamingResponse model toolMap systemPrompt messages) ->
  (forall c, In c (fst body ++ [CError (js_String e)]) -> parse (chunk_json c) = Some (parsed_of c)) ->
  receive parse reads prev =
    (prev ++ [mkMessage assistant (content_text (fst body)) (Some (thinking_text (fst body)))],
     false).
Proof.
  intros body He Hr Hp.
  unfold OllamaModel.createStreamingResponse in Hr. fold body in Hr.
  rewrite (receive_start parse body reads prev Hr).
  - rewrite start_trace, frames_of_enqueued, He.
    replace (map FChunk (fst body) ++ [FChunk (CError (js_String e))])
      with (map FChunk (fst body ++ [CError (js_String e)])) by now rewrite map_app.
    rewrite frame_chunks_map, no_done_map.
    assert (Hc : forall cs, content_text (cs ++ [CError (js_String e)]) = content_text cs)
      by (induction cs as [|c cs IH]; [reflexivity | destruct c; simpl; now rewrite IH]).
    assert (Ht : forall cs, thinking_text (cs ++ [CError (js_String e)]) = thinking_text cs)
      by (induction cs as [|c cs IH]; [reflexivity | destruct c; simpl; now rewrite IH]).
    now rewrite Hc, Ht.
  - rewrite start_trace, frames_of_enqueued, He.
    replace (map FChunk (fst body) ++ [FChunk (CError (js_String e))])
      with (map FChunk (fst body ++ [CError (js_String e)])) by now rewrite map_app.
    intros c Hc. apply Hp. apply in_map_iff in Hc as [c' [Hc' Hin]].
    injection Hc' as ->. exact Hin.
Qed.

Lemma read_loop_chunking_witness :
  concat_str (cut [7; 1; 30] sample_bytes) = concat_str [sample_bytes] /\
  read_loop json_parse_flat EmptyString (cut [7; 1; 30] sample_bytes) [] =
  read_loop json_parse_flat EmptyString [sample_bytes] [].
Proof.
  assert (H : concat_str (cut [7; 1; 30] sample_bytes) = concat_str [sample_bytes])
    by (vm_compute; reflexivity).
  split; [exact H | exact (read_loop_chunking json_parse_flat _ _ [] H)].
Defined.

Lemma client_receives_stream_witness :
  concat_str (cut [12; 5] sample_bytes) = sample_bytes /\
  receive json_parse_flat (cut [12; 5] sample_bytes) [] =
    ([mkMessage assistant "It is noon." (Some "checking the clock")], true).
Proof.
  assert (H : concat_str (cut [12; 5] sample_bytes) = sample_bytes) by (vm_compute; reflexivity).
  split; [exact H|].
  rewrite (client_receives_stream json_parse_flat plain_model sample_toolMap "sys"
             sample_messages (cut [12; 5] sample_bytes) [] H).
  - vm_compute. reflexivity.
  - intros c Hc. vm_compute in Hc.
    repeat (destruct Hc as [Hc|Hc]; [first [discriminate Hc | injection Hc as <-; vm_compute; reflexivity]|]).
    destruct Hc.
Defined.

Lemma client_drops_server_error_witness :
  snd (OllamaModel.start_body failing_model sample_toolMap
         (OllamaModel.convertToLangChainMessages "sys" sample_messages))
    = Throw (JError "Error" "socket hang up") /\
  receive json_parse_flat [failed_bytes] [] =
    ([mkMessage assistant "It is noon." (Some "checking the clock")], false).
Proof.
  assert (He : snd (OllamaModel.start_body failing_model sample_toolMap
                     (OllamaModel.convertToLangChainMessages "sys" sample_messages))
               = Throw (JError "Error" "socket hang up")) by reflexivity.
  split; [exact He|].
  rewrite (client_drops_server_error json_parse_flat failing_model sample_toolMap "sys"
             sample_messages [failed_bytes] [] _ He).
  - vm_compute. reflexivity.
  - vm_compute. reflexivity.
  - intros c Hc. vm_compute in Hc.
    repeat (destruct Hc as [<-|Hc]; [vm_compute; reflexivity|]). destruct Hc.
Defined.

Lemma streamChat_split model systemPrompt messages :
  exists pre tail,
    OllamaModel.streamChat model systemPrompt messages = pre ++ tail /\
    (forall c, In c pre -> is_error_chunk c = false) /\
    (tail = [] \/ exists m, tail = [CError m]).
Proof.
  rewrite streamChat_chunks.
  destruct (stream model _) as [s|e].
  - exists (flat_map OllamaModel.fragment_chunks (frags s)).
    eexists. split; [reflexivity|]. split.
    + intros c Hc. apply in_flat_map in Hc as [f [_ Hf]].
      exact (fragment_chunks_no_error f c Hf).
    + destruct (stream_end s); [right; eexists; reflexivity | left; reflexivity].
  - exists [], [CError (error_text e)]. split; [reflexivity|].
    split; [intros c []|]. right. eexists. reflexivity.
Qed.

Lemma collect_answer_app pre tail answer :
  (forall c, In c pre -> is_error_chunk c = false) ->
  collect_answer (pre ++ tail) answer = collect_answer tail (answer ^ content_text pre).
Proof.
  revert answer. induction pre as [|c pre IH]; intros answer Hp.
  - simpl. now rewrite append_empty_r.
  - assert (Hc : is_error_chunk c = false) by (apply Hp; left; reflexivity).
    assert (Hr : forall c', In c' pre -> is_error_chunk c' = false)
      by (intros c' H; apply Hp; right; exact H).
    destruct c as [x|x|x]; [| |discriminate]; rewrite <- app_comm_cons;
      cbn [collect_answer content_text].
    + rewrite thinking_or, IH by exact Hr. now rewrite append_assoc_str.
    + now rewrite IH by exact Hr.
Qed.

Lemma content_events_forward cs :
  content_events (flat_map forward_chain cs) = content_text cs.
Proof. induction cs as [|[x|x|x] cs IH]; simpl; rewrite ?IH; reflexivity. Qed.

Lemma forward_no_error cs :
  (forall c, In c cs -> is_error_chunk c = false) ->
  existsb is_error_event (flat_map forward_chain cs) = false.
Proof.
  induction cs as [|c cs IH]; intros H; [reflexivity|].
  assert (Hc : is_error_chunk c = false) by (apply H; left; reflexivity).
  destruct c; [| |discriminate]; simpl; apply IH; intros c' Hc'; apply H; right; exact Hc'.
Qed.

(** X4: executeRetrievalChainStream always completes normally: every failure, a failing search included, is reported as an error event, never as a rejection. *)
Theorem retrieval_stream_never_rejects db model systemPrompt query k :
  snd (executeRetrievalChainStream db model systemPrompt query k) = Ok tt.
Proof.
  unfold executeRetrievalChainStream, searchSimilarDocuments.
  destruct (db query k) as [docs|e]; [reflexivity|].
  destruct e; reflexivity.
Qed.

Lemma error_event_last (A tail : list ChainEvent) :
  existsb is_error_event A = false ->
  (tail = [] \/ exists m, tail = [EError m]) ->
  forall pre x post, A ++ tail = pre ++ x :: post -> is_error_event x = true -> post = [].
Proof.
  intros HA Ht pre. revert A HA.
  induction pre as [|p pre IH]; intros A HA x post H Hx.
  - destruct A as [|a A]; simpl in H.
    + destruct Ht as [-> | [m ->]]; [discriminate|]. now injection H as _ ->.
    + injection H as -> _. simpl in HA. rewrite Hx in HA. discriminate.
  - destruct A as [|a A]; simpl in H.
    + destruct Ht as [-> | [m ->]]; [discriminate|].
      injection H as _ H. destruct pre; discriminate.
    + injection H as _ H. simpl in HA. apply orb_false_iff in HA as [_ HA].
      exact (IH A HA x post H Hx).
Qed.

Lemma forward_tail (tail : list StreamChunk) :
  (tail = [] \/ exists m, tail = [CError m]) ->
  (flat_map forward_chain tail = [] \/ exists m, flat_map forward_chain tail = [EError m]).
Proof. intros [-> | [m ->]]; [left | right; exists m]; reflexivity. Qed.

(** X5: The streaming retrieval chain always yields the searching notice first, and an error event, when there is one, is the last event. *)
Theorem retrieval_stream_error_last db model systemPrompt query k :
  let evs := fst (executeRetrievalChainStream db model systemPrompt query k) in
  (exists rest, evs = ERetrieval "正在检索相关文档..." None :: rest) /\
  (forall pre x post, evs = pre ++ x :: post -> is_error_event x = true -> post = []).
Proof.
  intros evs. unfold evs, executeRetrievalChainStream.
  destruct (searchSimilarDocuments db query k) as [docs|e].
  - split; [eexists; reflexivity|].
    destruct (streamChat_split model systemPrompt (chain_messages query docs))
      as [cs [tail [-> [Hcs Htail]]]].
    cbn [fst]. rewrite flat_map_app, app_comm_cons, app_comm_cons.
    apply error_event_last; [| exact (forward_tail tail Htail)].
    exact (forward_no_error cs Hcs).
  - destruct (chain_error_message e) as [msg|e']; cbn [fst].
    + split; [eexists; reflexivity|].
      intros pre x post H Hx.
      destruct pre as [|y1 [|y2 pre]]; simpl in H.
      * injection H as <- _. discriminate.
      * now injection H as _ _ ->.
      * injection H as _ _ H. destruct pre; discriminate.
    + split; [eexists; reflexivity|].
      intros pre x post H Hx.
      destruct pre as [|y1 pre]; simpl in H.
      * injection H as <- _. discriminate.
      * injection H as _ H. destruct pre; discriminate.
Qed.



(** X7: executeRetrievalChain succeeds exactly when the streaming chain yields no error event. Then both have the same query and documents (the report event counts them), and the answer is the concatenation of the content events. *)
Theorem retrieval_chain_agrees db model systemPrompt query k :
  let evs := fst (executeRetrievalChainStream db model systemPrompt query k) in
  (forall r, executeRetrievalChain db model systemPrompt query k = Ok r ->
     r_query r = query /\
     exists rest,
       evs = ERetrieval "正在检索相关文档..." None ::
             ERetrieval ("检索到 " ^ nat_to_string (length (r_documents r)) ^ " 个相关文档")
                        (Some (r_documents r)) :: rest /\
       content_events rest = r_answer r) /\
  ((exists r, executeRetrievalChain db model systemPrompt query k = Ok r) <->
   existsb is_error_event evs = false).
Proof.
  intros evs. unfold evs, executeRetrievalChainStream, executeRetrievalChain.
  destruct (searchSimilarDocuments db query k) as [docs|e] eqn:Hsearch.
  - destruct (streamChat_split model systemPrompt (chain_messages query docs))
      as [cs [tail [Hs [Hcs Ht]]]].
    rewrite Hs, collect_answer_app by exact Hcs. cbn [fst].
    destruct Ht as [-> | [m ->]].
    + cbn [collect_answer]. rewrite !app_nil_r. split.
      * intros r Hr. injection Hr as <-. cbn [r_query r_documents r_answer].
        split; [reflexivity|]. eexists. split.
        -- rewrite length_map. reflexivity.
        -- now rewrite content_events_forward.
      * split; [intros _ | intros _; eexists; reflexivity].
        simpl. exact (forward_no_error cs Hcs).
    + cbn [collect_answer]. split; [intros r Hr; discriminate|].
      split; [intros [r Hr]; discriminate|].
      rewrite flat_map_app. simpl. rewrite existsb_app. simpl.
      now rewrite orb_true_r.
  - unfold searchSimilarDocuments in Hsearch.
    destruct (db query k) as [x|e0]; [discriminate|].
    assert (Hm : exists msg, chain_error_message e = Ok msg)
      by (destruct e0; injection Hsearch as <-; eexists; reflexivity).
    destruct Hm as [msg ->]. cbn [fst].
    split; [intros r Hr; discriminate|].
    split; [intros [r Hr]; discriminate | simpl; discriminate].
Qed.

(** X8: updateRAGOptions never changes embeddingApiKey or embeddingBaseUrl, and an update with no field set leaves the options unchanged. *)
Theorem updateRAGOptions_frame s options :
  RAGState.embeddingApiKey (RAGState.updateRAGOptions s options) = RAGState.embeddingApiKey s /\
  RAGState.embeddingBaseUrl (RAGState.updateRAGOptions s options) = RAGState.embeddingBaseUrl s /\
  RAGState.updateRAGOptions s PartialOptions.empty = s.
Proof. destruct s; split; [reflexivity | split; reflexivity]. Qed.

(** X9: After updateRAGOptions with enableRAG false, shouldUseRAG is false for every message. With enableRAG true and ragThreshold t, shouldUseRAG holds exactly when t <= 0 or the message is at least t characters long. *)
Theorem updateRAGOptions_decision s options message :
  (PartialOptions.enableRAG options = Some false ->
   RAGModel.shouldUseRAG (RAGState.decision_options (RAGState.updateRAGOptions s options)) message
   = false) /\
  (forall t, PartialOptions.enableRAG options = Some true ->
   PartialOptions.ragThreshold options = Some t ->
   RAGModel.shouldUseRAG (RAGState.decision_options (RAGState.updateRAGOptions s options)) message
   = true <-> (t <= 0 \/ t <= RAGModel.js_length message)%Z).
Proof.
  split.
  - intros He. unfold RAGModel.shouldUseRAG, RAGState.decision_options.
    cbn. rewrite He. reflexivity.
  - intros t He Ht. unfold RAGModel.shouldUseRAG, RAGState.decision_options.
    cbn. rewrite He, Ht. cbn [negb RAGState.set_if].
    destruct (Z.ltb_spec 0 t).
    + rewrite Z.leb_le. lia.
    + split; [intros _; left; lia | reflexivity].
Qed.

Lemma map_get_set m k t k' :
  map_get (map_set m k t) k' = if String.eqb k' k then Some t else map_get m k'.
Proof.
  induction m as [|[k0 t0] m IH]; simpl.
  - reflexivity.
  - destruct (String.eqb_spec k k0) as [<-|Hne]; simpl.
    + destruct (String.eqb k' k); reflexivity.
    + rewrite IH. destruct (String.eqb_spec k' k0) as [->|Hne'].
      * destruct (String.eqb_spec k0 k); [congruence | reflexivity].
      * reflexivity.
Qed.

Lemma map_set_keys m k t :
  NoDup (map fst m) -> NoDup (map fst (map_set m k t)) /\
  (forall x, In x (map fst (map_set m k t)) <-> x = k \/ In x (map fst m)).
Proof.
  induction m as [|[k0 t0] m IH]; intros Hnd; simpl.
  - split; [apply NoDup_cons; [intros [] | apply NoDup_nil] | intros x; simpl; split; intros [H|[]]; left; congruence].
  - inversion Hnd as [|? ? Hnin Hnd']; subst.
    destruct (String.eqb_spec k k0) as [<-|Hne]; simpl.
    + split; [constructor; assumption|].
      intros x. simpl. split.
      * intros [H|H]; [left; congruence | right; right; exact H].
      * intros [H|[H|H]]; [left; congruence | left; exact H | right; exact H].
    + destruct (IH Hnd') as [Hnd2 Hin2]. split.
      * constructor; [|exact Hnd2]. intros H. apply Hin2 in H as [H|H]; [congruence | contradiction].
      * intros x. rewrite Hin2. tauto.
Qed.

(** X10: The constructor's tool map has no duplicate names, and looking a name up gives the last tool registered under that name. *)
Theorem build_toolMap_lookup tools name :
  NoDup (map fst (build_toolMap tools)) /\
  map_get (build_toolMap tools) name = last_registered tools name.
Proof.
  unfold build_toolMap, last_registered.
  assert (G : forall m acc,
    NoDup (map fst m) -> map_get m name = acc ->
    NoDup (map fst (fold_left (fun m nt => map_set m (fst nt) (snd nt)) tools m)) /\
    map_get (fold_left (fun m nt => map_set m (fst nt) (snd nt)) tools m) name =
    fold_left (fun acc nt => if String.eqb (fst nt) name then Some (snd nt) else acc) tools acc).
  { induction tools as [|[n t] tools IH]; intros m acc Hnd Hacc; simpl; [auto|].
    apply IH.
    - apply map_set_keys, Hnd.
    - rewrite map_get_set, <- Hacc.
      destruct (String.eqb_spec name n), (String.eqb_spec n name); congruence. }
  apply G; [constructor | reflexivity].
Qed.



(** Retrieval with only empty or missing documents leaves the message as it is. *)
Lemma enhance_blank o db message ds :
  db message (RAGModel.k o) = Ok ds ->
  forallb (fun d => negb (truthy d)) ds = true ->
  RAGModel.enhanceMessageWithRAG o db message = Ok message.
Proof.
  intros Hdb Hblank. unfold RAGModel.enhanceMessageWithRAG, searchSimilarDocuments.
  rewrite Hdb.
  replace (filter _ _) with (@nil Document); [reflexivity|].
  clear Hdb. induction ds as [|d ds IH]; [reflexivity|].
  simpl in Hblank. apply andb_prop in Hblank as [Hd Hds].
  destruct d as [s|]; simpl in Hd |- *.
  - unfold js_or, truthy in *. destruct (String.eqb s EmptyString); simpl in Hd |- *;
      [exact (IH Hds) | discriminate].
  - exact (IH Hds).
Qed.

(** X11: When the search for the last message returns only empty or missing documents, RAGModel hands the history to OllamaModel unchanged, with no prompt template added. *)
Theorem rag_blank_retrieval_keeps_history o db model systemPrompt pre m ds :
  db (content m) (RAGModel.k o) = Ok ds ->
  forallb (fun d => negb (truthy d)) ds = true ->
  RAGModel.delegated_messages o db (pre ++ [m]) = Ok (pre ++ [m]) /\
  RAGModel.streamChat o db model systemPrompt (pre ++ [m]) =
    Ok (OllamaModel.streamChat model systemPrompt (pre ++ [m])).
Proof.
  intros Hdb Hblank.
  assert (H : RAGModel.delegated_messages o db (pre ++ [m]) = Ok (pre ++ [m])).
  { unfold RAGModel.delegated_messages. rewrite js_last_app.
    destruct m as [r c]. destruct r; [|reflexivity]. cbn [role content andb].
    destruct (RAGModel.shouldUseRAG o c); [|reflexivity].
    rewrite (enhance_blank o db c ds Hdb Hblank), removelast_last. reflexivity. }
  split; [exact H|]. unfold RAGModel.streamChat. now rewrite H.
Qed.

Lemma rag_blank_retrieval_keeps_history_witness :
  (fun (_ : string) (_ : nat) => Ok [None; Some EmptyString]) "hi" 4 = Ok [None; Some EmptyString] /\
  forallb (fun d => negb (truthy d)) [None; Some EmptyString] = true /\
  RAGModel.delegated_messages (RAGModel.mkRAGOptions true 0 4)
    (fun _ _ => Ok [None; Some EmptyString]) ([] ++ [mkChatMessage user "hi"]) =
    Ok ([] ++ [mkChatMessage user "hi"]) /\
  RAGModel.streamChat (RAGModel.mkRAGOptions true 0 4)
    (fun _ _ => Ok [None; Some EmptyString]) plain_model "sys" ([] ++ [mkChatMessage user "hi"]) =
    Ok (OllamaModel.streamChat plain_model "sys" ([] ++ [mkChatMessage user "hi"])).
Proof.
  split; [reflexivity|]. split; [reflexivity|].
  exact (rag_blank_retrieval_keeps_history (RAGModel.mkRAGOptions true 0 4)
           (fun _ _ => Ok [None; Some EmptyString]) plain_model "sys" []
           (mkChatMessage user "hi") [None; Some EmptyString] eq_refl eq_refl).
Defined.

Lemma prefix_self_app p q : String.prefix p (p ^ q) = true.
Proof.
  induction p as [|a p IH]; simpl; [destruct q; reflexivity|].
  destruct (ascii_dec a a); [exact IH | contradiction].
Qed.

Lemma js_includes_eq s sub :
  js_includes s sub =
    String.prefix sub s || match s with EmptyString => false | String _ s' => js_includes s' sub end.
Proof. destruct s; reflexivity. Qed.

Lemma js_includes_middle a b c : js_includes (a ^ b ^ c) b = true.
Proof.
  induction a as [|x a IH].
  - cbn [String.append]. now rewrite js_includes_eq, prefix_self_app.
  - cbn [String.append]. rewrite js_includes_eq, IH. apply orb_true_r.
Qed.

(** X12: When an Ollama embedder fails with an error whose message contains 'not found', embedDocuments rejects with an Error whose message contains 'ollama pull <model>' for the model that createEmbeddings configured. *)
Theorem embedDocuments_pull_hint {V : Type} (embedWith : Embedder -> list string -> Res (list V))
    texts options env e :
  embedWith (createEmbeddings "ollama" options env) texts = Throw e ->
  message_includes e "not found" = true ->
  exists model baseUrl msg,
    createEmbeddings "ollama" options env = OllamaEmbeddings model baseUrl /\
    embedDocuments embedWith texts "ollama" options env = Throw (JError "Error" msg) /\
    js_includes msg ("ollama pull " ^ model) = true.
Proof.
  intros He Hnf. do 3 eexists. split; [reflexivity|].
  unfold embedDocuments. rewrite He, Hnf. cbn [String.eqb andb]. split; [reflexivity|].
  set (m := or_default _ _).
  pose proof (js_includes_middle ("Ollama 嵌入模型 " ^ dq ^ m ^ dq ^ " 未找到。请先运行: ")
                ("ollama pull " ^ m) (nl ^ "或者使用其他模型，如: ollama pull all-minilm")) as H.
  rewrite !append_assoc_str in H. exact H.
Qed.

Lemma embedDocuments_pull_hint_witness :
  (fun (_ : Embedder) (_ : list string) => Throw (JError "ResponseError" "model not found") : Res (list (list Z)))
    (createEmbeddings "ollama" (mkEmbedOptions None None None) (mkEmbedEnv None None None)) ["a"]
    = Throw (JError "ResponseError" "model not found") /\
  message_includes (JError "ResponseError" "model not found") "not found" = true /\
  exists model baseUrl msg,
    createEmbeddings "ollama" (mkEmbedOptions None None None) (mkEmbedEnv None None None)
      = OllamaEmbeddings model baseUrl /\
    embedDocuments (fun (_ : Embedder) (_ : list string) =>
                      Throw (JError "ResponseError" "model not found") : Res (list (list Z)))
      ["a"] "ollama" (mkEmbedOptions None None None) (mkEmbedEnv None None None)
      = Throw (JError "Error" msg) /\
    js_includes msg ("ollama pull " ^ model) = true.
Proof.
  split; [reflexivity|]. split; [vm_compute; reflexivity|].
  apply (embedDocuments_pull_hint
           (fun (_ : Embedder) (_ : list string) =>
              Throw (JError "ResponseError" "model not found") : Res (list (list Z)))
           ["a"] (mkEmbedOptions None None None) (mkEmbedEnv None None None)
           (JError "ResponseError" "model not found")); [reflexivity | vm_compute; reflexivity].
Defined.

(** X13: When embedDocuments succeeds, embedChunks returns one entry per chunk. Entry i holds chunk i, the i-th vector (undefined past the end of the vectors) and index i. *)
Theorem embedChunks_aligned {V : Type} (embedWith : Embedder -> list string -> Res (list V))
    chunks type options env vs :
  embedDocuments embedWith chunks type options env = Ok vs ->
  exists r, embedChunks embedWith chunks type options env = Ok r /\
    length r = length chunks /\
    forall i text, nth_error chunks i = Some text ->
      nth_error r i = Some (mkEmbeddedChunk V text (nth_error vs i) i).
Proof.
  intros H. unfold embedChunks. rewrite H. eexists. split; [reflexivity|].
  split; [apply map_index_length|].
  intros i text Hi. exact (map_index_nth _ chunks 0 i text Hi).
Qed.

Lemma embedChunks_aligned_witness :
  embedDocuments length_embedder
    ["ab"; "c"] "openai" (mkEmbedOptions None None None) (mkEmbedEnv None None None) = Ok [[2%Z]; [1%Z]] /\
  exists r, embedChunks length_embedder
    ["ab"; "c"] "openai" (mkEmbedOptions None None None) (mkEmbedEnv None None None) = Ok r /\
    length r = length ["ab"; "c"] /\
    forall i text, nth_error ["ab"; "c"] i = Some text ->
      nth_error r i = Some (mkEmbeddedChunk (list Z) text (nth_error [[2%Z]; [1%Z]] i) i).
Proof.
  split; [reflexivity|].
  exact (embedChunks_aligned length_embedder ["ab"; "c"] "openai" (mkEmbedOptions None None None)
           (mkEmbedEnv None None None) [[2%Z]; [1%Z]] eq_refl).
Defined.

(** *** Header removal *)

Lemma term_space c : is_line_terminator c = true -> is_js_space c = true.
Proof. unfold is_js_space. intros ->. reflexivity. Qed.

Lemma hash_not_space c : is_hash c = true -> is_js_space c = false.
Proof. unfold is_hash. intros H. apply Z.eqb_eq in H. subst. reflexivity. Qed.

Lemma hash_not_term c : is_hash c = true -> is_line_terminator c = false.
Proof. unfold is_hash. intros H. apply Z.eqb_eq in H. subst. reflexivity. Qed.

Lemma nonspace_not_term c : is_js_space c = false -> is_line_terminator c = false.
Proof. destruct (is_line_terminator c) eqn:E; [|reflexivity]. now rewrite term_space. Qed.

Lemma heading_hashes b n :
  has_heading_line b (repeat 35%Z n) = false.
Proof.
  revert b; induction n as [|n IH]; intros b; [reflexivity|].
  cbn [repeat has_heading_line]. rewrite IH, orb_false_r.
  destruct b; [|reflexivity]. cbn [andb heading_at].
  change (is_hash 35) with true. cbn [andb].
  clear IH. induction n; [reflexivity | exact IHn].
Qed.

Lemma hashes_then_space_hashes n c X :
  is_hash c = false -> is_js_space c = false ->
  hashes_then_space (repeat 35%Z n ++ c :: X) = false.
Proof.
  intros Hh Hs. induction n as [|n IH]; simpl.
  - now rewrite Hh.
  - exact IH.
Qed.

Lemma heading_hashes_then b n c X :
  is_hash c = false -> is_js_space c = false ->
  has_heading_line b (repeat 35%Z n ++ c :: X) = has_heading_line false X.
Proof.
  intros Hh Hs. revert b; induction n as [|n IH]; intros b.
  - simpl. rewrite Hh, andb_false_r.
    now rewrite (nonspace_not_term c Hs).
  - simpl. rewrite IH.
    unfold heading_at. rewrite hashes_then_space_hashes by assumption.
    rewrite !andb_false_r. reflexivity.
Qed.

Definition state_flag (st : HeaderState) : bool :=
  match st with HLine b => b | _ => true end.

Lemma strip_no_heading s : forall st,
  has_heading_line (state_flag st) (strip_headers st s) = false.
Proof.
  induction s as [|c r IH]; intros st.
  - destruct st; try reflexivity. apply heading_hashes.
  - destruct st as [[|]|n| |]; cbn [strip_headers state_flag].
    + destruct (is_hash c) eqn:Hh; [exact (IH (HHashes 1))|].
      cbn [has_heading_line heading_at]. rewrite Hh. exact (IH (HLine _)).
    + cbn [has_heading_line]. exact (IH (HLine _)).
    + destruct (is_hash c) eqn:Hh; [exact (IH (HHashes (S n)))|].
      destruct (is_js_space c) eqn:Hs; [exact (IH HSpaces)|].
      rewrite heading_hashes_then by assumption.
      rewrite <- (nonspace_not_term c Hs) at 1. exact (IH (HLine _)).
    + destruct (is_js_space c); [exact (IH HSpaces) | exact (IH HRest)].
    + destruct (is_line_terminator c) eqn:Ht; [|exact (IH HRest)].
      cbn [has_heading_line heading_at].
      destruct (is_hash c) eqn:Hh; [rewrite hash_not_term in Ht; [discriminate | exact Hh]|].
      rewrite Ht. exact (IH (HLine true)).
Qed.

Lemma repeat_snoc (n : nat) (x : Z) r : repeat x (S n) ++ r = repeat x n ++ x :: r.
Proof. induction n as [|n IH]; [reflexivity|]. simpl in *. now rewrite IH. Qed.

Lemma strip_identity s : forall st,
  match st with
  | HLine b => has_heading_line b s = false -> strip_headers st s = s
  | HHashes n => hashes_then_space s = false -> has_heading_line false s = false ->
                 strip_headers st s = repeat 35%Z n ++ s
  | _ => True
  end.
Proof.
  induction s as [|c r IH]; intros st.
  - destruct st; try exact I; intros; cbn; [reflexivity | now rewrite app_nil_r].
  - destruct st as [b|n| |]; try exact I.
    + intros H. cbn [has_heading_line] in H. apply orb_false_elim in H as [H1 H2].
      assert (Hcopy : strip_headers (HLine (is_line_terminator c)) r = r)
        by exact (IH (HLine _) H2).
      destruct b; cbn [strip_headers].
      * destruct (is_hash c) eqn:Hh; [|now rewrite Hcopy].
        cbn [andb heading_at] in H1. rewrite Hh in H1. cbn [andb] in H1.
        rewrite (hash_not_term c Hh) in H2.
        rewrite (IH (HHashes 1) H1 H2). unfold is_hash in Hh. apply Z.eqb_eq in Hh.
        now subst.
      * now rewrite Hcopy.
    + intros H1 H2. cbn [hashes_then_space has_heading_line] in H1, H2.
      cbn [strip_headers]. cbn [andb orb] in H2.
      destruct (is_hash c) eqn:Hh.
      * rewrite (hash_not_term c Hh) in H2.
        rewrite (IH (HHashes (S n)) H1 H2), repeat_snoc.
        unfold is_hash in Hh. apply Z.eqb_eq in Hh. now subst.
      * rewrite H1. now rewrite (IH (HLine _) H2).
Qed.

(** X14: After the constructor's replace(/^#+\s+.*$/gm, '') no line starts with hashes followed by white space. Text with no such line is left unchanged, so the replacement is idempotent. *)
Theorem strip_headers_spec s :
  has_heading_line true (strip_headers (HLine true) s) = false /\
  (has_heading_line true s = false -> strip_headers (HLine true) s = s) /\
  strip_headers (HLine true) (strip_headers (HLine true) s) = strip_headers (HLine true) s.
Proof.
  pose proof (strip_no_heading s (HLine true)) as H. cbn [state_flag] in H.
  split; [exact H|]. split.
  - exact (strip_identity s (HLine true)).
  - exact (strip_identity _ (HLine true) H).
Qed.

Lemma strip_hashes k n z :
  strip_headers (HHashes k) (repeat 35%Z n ++ z) = strip_headers (HHashes (k + n)) z.
Proof.
  revert k; induction n as [|n IH]; intros k; simpl.
  - now rewrite Nat.add_0_r.
  - rewrite IH. now rewrite Nat.add_succ_r.
Qed.

Lemma strip_spaces W z :
  forallb is_js_space W = true -> strip_headers HSpaces (W ++ z) = strip_headers HSpaces z.
Proof.
  induction W as [|w W IH]; intros H; [reflexivity|].
  simpl in H |- *. apply andb_prop in H as [Hw HW]. rewrite Hw. exact (IH HW).
Qed.

Lemma strip_rest L z :
  forallb (fun c => negb (is_line_terminator c)) L = true ->
  strip_headers HRest (L ++ z) = strip_headers HRest z.
Proof.
  induction L as [|x L IH]; intros H; [reflexivity|].
  simpl in H |- *. apply andb_prop in H as [Hx HL].
  destruct (is_line_terminator x); [discriminate|]. exact (IH HL).
Qed.

Lemma space_not_hash c : is_js_space c = true -> is_hash c = false.
Proof.
  destruct (is_hash c) eqn:Hh; [|reflexivity]. now rewrite (hash_not_space c Hh).
Qed.

(** X15: One header removal takes the hashes, the following run of white space (which may span line breaks) and the first non-blank line after it, up to but excluding the next line terminator, or to the end of the text. *)
Theorem header_removal_span n W l L t rest :
  W <> [] -> forallb is_js_space W = true ->
  is_js_space l = false ->
  forallb (fun c => negb (is_line_terminator c)) L = true ->
  is_line_terminator t = true ->
  strip_headers (HLine true) (repeat 35%Z (S n) ++ W ++ l :: L ++ t :: rest) =
    t :: strip_headers (HLine true) rest /\
  strip_headers (HLine true) (repeat 35%Z (S n) ++ W ++ l :: L) = [].
Proof.
  intros HW HWs Hl HL Ht.
  destruct W as [|w W]; [contradiction|]. simpl in HWs. apply andb_prop in HWs as [Hw HWs].
  assert (G : forall z, strip_headers (HLine true) (repeat 35%Z (S n) ++ (w :: W) ++ l :: L ++ z)
                        = strip_headers HRest z).
  { intros z. cbn [repeat]. rewrite <- app_comm_cons. cbn [strip_headers].
    change (is_hash 35) with true. cbn iota.
    rewrite strip_hashes, <- app_comm_cons. cbn [strip_headers].
    rewrite (space_not_hash w Hw), Hw, strip_spaces by exact HWs.
    cbn [strip_headers]. rewrite Hl. exact (strip_rest L z HL). }
  split.
  - rewrite G. cbn [strip_headers]. now rewrite Ht.
  - rewrite <- (app_nil_r L). rewrite G. reflexivity.
Qed.

Lemma header_removal_span_witness :
  [32%Z; 10%Z] <> [] /\ forallb is_js_space [32%Z; 10%Z] = true /\
  is_js_space 66 = false /\
  forallb (fun c => negb (is_line_terminator c)) [111%Z; 100%Z; 121%Z] = true /\
  is_line_terminator 10 = true /\
  strip_headers (HLine true) (repeat 35%Z 2 ++ [32%Z; 10%Z] ++ 66%Z :: [111%Z; 100%Z; 121%Z] ++ 10%Z :: [88%Z]) =
    10%Z :: strip_headers (HLine true) [88%Z] /\
  strip_headers (HLine true) (repeat 35%Z 2 ++ [32%Z; 10%Z] ++ 66%Z :: [111%Z; 100%Z; 121%Z]) = [].
Proof.
  split; [discriminate|]. split; [reflexivity|]. split; [reflexivity|].
  split; [reflexivity|]. split; [reflexivity|].
  apply (header_removal_span 1 [32%Z; 10%Z] 66 [111%Z; 100%Z; 121%Z] 10 [88%Z]);
    [discriminate | reflexivity | reflexivity | reflexivity | reflexivity].
Defined.

Lemma heading_false_start b s : has_heading_line b s = false -> has_heading_line false s = false.
Proof. destruct s; [reflexivity|]. simpl. intros H. now apply orb_false_elim in H as [_ H]. Qed.

Lemma heading_trim_start s : forall b,
  has_heading_line b s = false -> has_heading_line false (trim_start s) = false.
Proof.
  induction s as [|c r IH]; intros b H; [reflexivity|].
  cbn [trim_start]. destruct (is_js_space c).
  - simpl in H. apply orb_false_elim in H as [_ H]. exact (IH _ H).
  - exact (heading_false_start b _ H).
Qed.

Lemma hashes_then_space_app x w :
  hashes_then_space x = true -> hashes_then_space (x ++ w) = true.
Proof.
  induction x as [|c x IH]; [discriminate|]. simpl.
  destruct (is_hash c); [exact IH | exact (fun H => H)].
Qed.

Lemma heading_prefix x w : forall b,
  has_heading_line b (x ++ w) = false -> has_heading_line b x = false.
Proof.
  induction x as [|c x IH]; intros b H; [reflexivity|].
  simpl in H |- *. apply orb_false_elim in H as [H1 H2].
  rewrite (IH _ H2), orb_false_r.
  destruct b; [|reflexivity]. cbn [andb] in H1 |- *.
  destruct (is_hash c); [|reflexivity]. cbn [andb] in H1 |- *.
  destruct (hashes_then_space x) eqn:E; [|reflexivity].
  now rewrite (hashes_then_space_app x w E) in H1.
Qed.

Lemma trim_end_prefix s : exists w, s = trim_end s ++ w.
Proof.
  induction s as [|c r [w IH]]; [exists []; reflexivity|].
  cbn [trim_end]. destruct (trim_end r) as [|x r'] eqn:E.
  - destruct (is_js_space c).
    + exists (c :: r). reflexivity.
    + exists w. simpl. now rewrite IH.
  - exists w. simpl. now rewrite IH.
Qed.

(** X16: In the system prompt set by the constructor (the file text with headers removed and trimmed, or the default prompt), no line other than the first starts with hashes and white space. The first line can, when the file's heading was indented, since trim runs after the removal. *)
Theorem load_system_prompt_headings file :
  has_heading_line false (load_system_prompt file) = false /\
  heading_at (load_system_prompt (Ok [32%Z; 35%Z; 32%Z; 65%Z])) = true.
Proof.
  split; [|reflexivity].
  destruct file as [text|e]; [|vm_compute; reflexivity].
  cbn [load_system_prompt]. unfold js_trim.
  pose proof (strip_no_heading text (HLine true)) as H. cbn [state_flag] in H.
  apply heading_trim_start in H.
  destruct (trim_end_prefix (trim_start (strip_headers (HLine true) text))) as [w Hw].
  rewrite Hw in H. exact (heading_prefix _ w false H).
Qed.

Lemma pad_two_digits_all :
  forallb (fun n => String.eqb (padStart2 (nat_to_string n)) (two_digits n)) (seq 0 100) = true.
Proof. vm_compute. reflexivity. Qed.

Lemma pad_two_digits n : n < 100 -> padStart2 (nat_to_string n) = two_digits n.
Proof.
  intros H. pose proof pad_two_digits_all as A. rewrite forallb_forall in A.
  apply String.eqb_eq, A, in_seq. lia.
Qed.

(** X17: For field values in a Date's ranges, getFormattedTime writes the month (counted from 1), day, hours, minutes and seconds with exactly two digits. 'date' is YYYY-MM-DD, 'time' is HH:mm:ss, and 'datetime' and 'full' are the date, a space and the time. *)
Theorem getFormattedTime_layout now :
  getMonth now < 12 -> getDate now <= 31 -> getHours now < 24 ->
  getMinutes now < 60 -> getSeconds now < 60 ->
  getFormattedTime now TDate =
    Z_to_string (getFullYear now) ^ "-" ^ two_digits (getMonth now + 1) ^ "-"
    ^ two_digits (getDate now) /\
  getFormattedTime now TTime =
    two_digits (getHours now) ^ ":" ^ two_digits (getMinutes now) ^ ":"
    ^ two_digits (getSeconds now) /\
  getFormattedTime now TDatetime = getFormattedTime now TDate ^ " " ^ getFormattedTime now TTime /\
  getFormattedTime now TFull = getFormattedTime now TDatetime.
Proof.
  intros Hmo Hd Hh Hmi Hs. unfold getFormattedTime.
  rewrite !pad_two_digits by lia.
  split; [reflexivity|]. split; [reflexivity|]. split; [|reflexivity].
  now rewrite !append_assoc_str.
Qed.

Lemma getFormattedTime_layout_witness :
  3 < 12 /\ 9 <= 31 /\ 7 < 24 /\ 5 < 60 /\ 42 < 60 /\
  getFormattedTime (mkLocalTime 2026 3 9 7 5 42) TDatetime = "2026-04-09 07:05:42".
Proof.
  split; [lia|]. split; [lia|]. split; [lia|]. split; [lia|]. split; [lia|].
  destruct (getFormattedTime_layout (mkLocalTime 2026 3 9 7 5 42)) as [Hd [Ht [Hdt _]]];
    cbn [getMonth getDate getHours getMinutes getSeconds]; try lia.
  rewrite Hdt, Hd, Ht. vm_compute. reflexivity.
Defined.
